(** * Lazy-consensus bot: the voting lifecycle of [bot/vote.py] and [bot/grant.py]

    A shallow embedding of the reaction handlers ([on_raw_reaction_add],
    [on_raw_reaction_remove]), of [cancel_proposal] and of [grant], over the
    data model of [bot/config/schemas.py].  Handlers are programs in a
    state-and-exception monad over a [World]: the in-memory proposal
    dictionary, the database, and the trace of Discord calls and log records
    the handlers have issued.  Everything the Discord client answers, and
    whether a given call or database write succeeds, is read from an [Env].
    A handler is an [async def]: [exec] runs it to its end on its own, and
    [interleave] lets several handlers take turns at their awaited calls,
    as the event loop does. *)

From Stdlib Require Import ZArith QArith Bool Lia.
From stdpp Require Import base option list gmap strings.

Local Open Scope string_scope.
Local Open Scope list_scope.
Local Open Scope Z_scope.

(** ** Data model ([bot/config/schemas.py]) *)

(** [ProposalResult] is imported from [bot.config.const]; the handlers use
    these three members. *)
Inductive ProposalResult :=
| ACCEPTED
| CANCELLED_BY_REACHING_THRESHOLD
| CANCELLED_BY_PROPOSER.

#[global] Instance ProposalResult_eq_dec : EqDecision ProposalResult.
Proof. solve_decision. Defined.

(** [class Voters(Base)]: the primary key and the foreign key are [None]
    until the row is written. *)
Module Voters.
Record t := mk {
    id : option Z;
    user_id : Z;
    voting_message_id : Z;
    grant_proposal_id : option Z
  }.
#[global] Instance eq_dec : EqDecision t.
Proof. solve_decision. Defined.
End Voters.

(** [class Proposals(Base)].  [author] holds the mention string the handlers
    compare with [payload.member.mention].  [voters] is the relationship
    declared with [cascade="all, delete-orphan"].  [closed_at] is read by
    [on_raw_reaction_add] but is no declared column of [Proposals]: it is
    [None] when the attribute is not set on the object. *)
Module Proposals.
Record t := mk {
    id : Z;
    message_id : Z;
    channel_id : Z;
    author : string;
    voting_message_id : Z;
    is_grantless : bool;
    mention : option string;
    amount : option Q;
    description : string;
    timer : Z;
    threshold : Z;
    submitted_at : Z;
    bot_response_message_id : Z;
    voters : list Voters.t;
    closed_at : option Z
  }.

Definition set_voters (vs : list Voters.t) (p : t) : t :=
    mk (id p) (message_id p) (channel_id p) (author p) (voting_message_id p)
       (is_grantless p) (mention p) (amount p) (description p) (timer p)
       (threshold p) (submitted_at p) (bot_response_message_id p) vs
       (closed_at p).
End Proposals.

(** [class ProposalHistory(Proposals)]: the inherited columns are [base];
    the primary key is [Proposals.id base]. *)
Module ProposalHistory.
Record t := mk {
    base : Proposals.t;
    result : option ProposalResult;
    voting_message_url : option string;
    closed_at : option Z
  }.
Definition id (h : t) : Z := Proposals.id (base h).
End ProposalHistory.

(** ** Discord objects the handlers read *)

Record Member := { member_id : Z; member_mention : string }.

Record Message := { msg_channel : Z; msg_id : Z; jump_url : string }.

(** [discord.RawReactionActionEvent] *)
Module Payload.
Record t := mk {
    emoji_name : string;
    guild_id : Z;
    channel_id : Z;
    message_id : Z;
    user_id : Z;
    event_type : string;
    member : option Member
  }.
End Payload.

(** ** Message texts

    A text is a template of [bot.config.const] with the keyword arguments
    of its [.format(...)] call; templates indexed by a [ProposalResult]
    carry it. *)
Inductive Arg :=
| a_str (s : string)
| a_opt (s : option string)
| a_int (z : Z)
| a_amount (q : option Q)
| a_users (us : list Z).

Inductive Template :=
| HELP_MESSAGE_VOTED_INCORRECTLY
| VOTING_PAUSED_RECOVERY_RESPONSE
| HELP_MESSAGE_VOTED_AGAINST
| GRANTLESS_PROPOSAL_RESULT_PROPOSER_RESPONSE (r : ProposalResult)
| GRANT_PROPOSAL_RESULT_PROPOSER_RESPONSE (r : ProposalResult)
| PROPOSAL_CANCELLED_VOTING_CHANNEL (r : ProposalResult)
| GRANT_COMMAND_MESSAGE
| PROPOSAL_WITH_GRANT_RESULT_PROPOSER_RESPONSE (r : ProposalResult)
| PROPOSAL_WITH_GRANT_RESULT_VOTING_CHANNEL_EDITED_MESSAGE (r : ProposalResult)
| GRANTLESS_PROPOSAL_RESULT_VOTING_CHANNEL_EDITED_MESSAGE (r : ProposalResult)
| ERROR_MESSAGE_PROPOSAL_WITH_GRANT_VOTING_LINK_REMOVED
| ERROR_MESSAGE_GRANTLESS_PROPOSAL_VOTING_LINK_REMOVED
| COULD_NOT_APPLY_GRANT
| UNEXPECTED_ERROR (doing : string).

Record Text := fmt { template : Template; kwargs : list (string * Arg) }.

(** ** Effects *)

(** Awaited Discord calls.  [suppress_reply] is [message.edit(suppress=True)]
    on the message a [reply] returned. *)
Inductive Action :=
| add_reaction (channel message : Z) (emoji : string)
| remove_reaction (channel message : Z) (emoji : string) (user : option Z)
| reply (channel message : Z) (content : Text)
| suppress_reply (channel message : Z)
| edit (channel message : Z) (content : Text) (suppress : bool)
| create_dm (user : Z)
| dm_send (user : Z) (content : Text)
| send_dm (guild user : Z) (content : Text)
| channel_send (channel : Z) (content : Text).

Inductive DbOp :=
| insert_voter (proposal_id : Z)
| delete_voter (voter_id : option Z)
| insert_history (proposal_id : Z)
| delete_proposal (proposal_id : Z).

Inductive Level := WARNING | INFO | ERROR | CRITICAL.

(** Log records above debug level, by what they report. *)
Inductive LogRecord :=
| voter_not_in_db (user message : Z)
| voted_twice (user message : Z)
| added_vote (user : Z) (total : nat) (voting_message : Z)
| rejecting_vote_recovery (who : string)
| cancelled (grantless : bool) (r : ProposalResult) (voting_message : Z)
| proposal_not_found (voting_message : Z)
| grant_message_failed (voting_message : Z)
| original_message_removed (message : Z)
| voting_message_not_found (voting_message : Z)
| error_removing_proposal
| approved (voting_message : Z)
| unable_to_reply
| unexpected_error (doing : string).

Inductive Event :=
| Did (a : Action)
| Failed (a : Action)
| Logged (l : Level) (r : LogRecord).

Inductive Exn :=
| ValueError
| AttributeError
| NameError
| DiscordError
| DBError
| IntegrityError.

#[global] Instance Exn_eq_dec : EqDecision Exn.
Proof. solve_decision. Defined.

(** ** The world the handlers run in *)

(** The database: the rows of [proposals] (each with the [voters] rows its
    relationship owns), the rows of the history table, and the recovery
    flag [DBUtil.is_recovery] reports. *)
Record DB := mkDB {
  proposals : list Proposals.t;
  history : list ProposalHistory.t;
  recovery : bool
}.

(** [index] is the dictionary of live proposals, keyed by
    [voting_message_id]; [db] is the database it mirrors. *)
Record State := mkState {
  index : gmap Z Proposals.t;
  db : DB
}.

(** A world is the state together with the Discord calls and log records
    issued so far. *)
Record World := mkWorld {
  state : State;
  trace : list Event
}.

Definition set_state (f : State → State) (w : World) : World :=
  mkWorld (f (state w)) (trace w).
Definition emit (e : Event) (w : World) : World :=
  mkWorld (state w) (trace w ++ [e]).

Definition set_index (f : gmap Z Proposals.t → gmap Z Proposals.t) (s : State) : State :=
  mkState (f (index s)) (db s).
Definition set_db (f : DB → DB) (s : State) : State :=
  mkState (index s) (f (db s)).

Definition set_proposals (f : list Proposals.t → list Proposals.t) (d : DB) : DB :=
  mkDB (f (proposals d)) (history d) (recovery d).
Definition set_history (f : list ProposalHistory.t → list ProposalHistory.t) (d : DB) : DB :=
  mkDB (proposals d) (f (history d)) (recovery d).
Definition set_recovery (b : bool) (d : DB) : DB :=
  mkDB (proposals d) (history d) b.

(** Constants of [bot.config.const]. *)
Record Const := {
  CANCEL_EMOJI_UNICODE : string;
  HEART_EMOJI_LIST : list string;
  VOTING_CHANNEL_ID : Z;
  CHANNELS_TO_REMOVE_HELPER_MESSAGES_AND_REACTIONS : list Z;
  GRANT_APPLY_CHANNEL_ID : Z;
  LAZY_CONSENSUS_THRESHOLD : Z;
  REACTION_ON_PROPOSAL_CANCELLED : string;
  REACTION_ON_PROPOSAL_ACCEPTED : string;
  EMOJI_HOORAY : string;
  RESPONSIBLE_MENTION : string
}.

(** What the outside answers to the handlers. *)
Record Env := {
  const : Const;
  (** [client.get_guild(id)] finds the guild *)
  client_get_guild : Z → bool;
  (** [guild.get_member(user_id)] *)
  guild_get_member : Z → Z → option Member;
  (** [bot.utils.validation.validate_roles(member)] *)
  validate_roles : option Member → bool;
  (** [guild.get_channel(channel_id)] finds the channel ([None] for forums) *)
  guild_get_channel : Z → Z → bool;
  (** [client.get_channel(channel_id)] finds the channel *)
  client_get_channel : Z → bool;
  (** [bot.utils.discord_utils.get_message(client, channel, message)] *)
  get_message : Z → Z → option Message;
  (** [channel.fetch_message(message)]; [None] when it raises *)
  fetch_message : Z → Z → option Message;
  (** the awaited call goes through *)
  io_ok : Action → bool;
  (** the database write goes through *)
  db_ok : DbOp → bool;
  (** [datetime.utcnow()] *)
  utcnow : Z;
  (** [grant.py] reads [get_message], [voting_channel] and
      [original_channel] without binding or importing them: each is there
      only if the star import of [bot.config.const] provides it *)
  grant_get_message : bool;
  voting_channel_id : option Z;
  original_channel_id : option Z
}.

(** ** The handler monad

    A handler is a program over the world: it returns, raises, reads or
    writes the world, or awaits a Discord call and goes on with whether the
    call went through.  An awaited call is where the event loop may run
    another handler. *)

Inductive M (A : Type) : Type :=
| Ret (a : A)
| Raise (e : Exn)
| Get (k : World → M A)
| Put (w : World) (k : M A)
| Await (a : Action) (k : bool → M A).
Arguments Ret {A} a.
Arguments Raise {A} e.
Arguments Get {A} k.
Arguments Put {A} w k.
Arguments Await {A} a k.

Definition ret {A} (a : A) : M A := Ret a.
Definition raise {A} (e : Exn) : M A := Raise e.

Fixpoint bind {A B} (m : M A) (k : A → M B) : M B :=
  match m with
  | Ret a => k a
  | Raise e => Raise e
  | Get f => Get (λ w, bind (f w) k)
  | Put w m' => Put w (bind m' k)
  | Await a f => Await a (λ ok, bind (f ok) k)
  end.

#[global] Instance M_ret : MRet M := @ret.
#[global] Instance M_bind : MBind M := λ A B k m, bind m k.

(** [try: m  except Exception: h] *)
Fixpoint try_except {A} (m : M A) (h : Exn → M A) : M A :=
  match m with
  | Ret a => Ret a
  | Raise e => h e
  | Get f => Get (λ w, try_except (f w) h)
  | Put w m' => Put w (try_except m' h)
  | Await a f => Await a (λ ok, try_except (f ok) h)
  end.

(** [try: m  except ValueError: h] *)
Definition try_except_ValueError {A} (m : M A) (h : M A) : M A :=
  try_except m (λ e, if decide (e = ValueError) then h else raise e).

Definition gets {A} (f : World → A) : M A := Get (λ w, Ret (f w)).
Definition modify (f : World → World) : M unit := Get (λ w, Put (f w) (Ret tt)).

(** An awaited Discord call: it either goes through or raises. *)
Definition perform (a : Action) : M unit :=
  Await a (λ ok, if ok then Ret tt else Raise DiscordError).

(** Attribute access on a value that may be [None]. *)
Definition attr {A} (o : option A) : M A :=
  match o with Some a => ret a | None => raise AttributeError end.

(** A global name that may be unbound. *)
Definition name {A} (o : option A) : M A :=
  match o with Some a => ret a | None => raise NameError end.

Definition log (l : Level) (r : LogRecord) : M unit := modify (emit (Logged l r)).

(** How a handler ends. *)
Inductive Outcome (A : Type) :=
| Ok (a : A)
| Err (e : Exn).
Arguments Ok {A} a.
Arguments Err {A} e.

(** What an awaited call leaves in the trace. *)
Definition called (env : Env) (a : Action) : Event :=
  if io_ok env a then Did a else Failed a.

(** A handler run to its end with no other handler in between. *)
Fixpoint exec {A} (env : Env) (m : M A) (w : World) : World * Outcome A :=
  match m with
  | Ret a => (w, Ok a)
  | Raise e => (w, Err e)
  | Get f => exec env (f w) w
  | Put w' m' => exec env m' w'
  | Await a f => exec env (f (io_ok env a)) (emit (called env a) w)
  end.

Definition final {A} (r : World * Outcome A) : World := fst r.
Definition outcome {A} (r : World * Outcome A) : Outcome A := snd r.

(** *** Handlers that run together

    The client starts a task for every event.  The event loop runs one
    task at a time and turns to another one only where the running one
    awaits.  Here a handler gives way where it awaits a call that acts on
    Discord ([perform]); look-ups and the persistence helpers answer at
    once. *)

(** One turn of a handler: it runs up to its next awaited call, makes the
    call and waits for the result; what is left of it goes on from there
    at its next turn. *)
Fixpoint advance {A} (env : Env) (m : M A) (w : World) : World * M A :=
  match m with
  | Ret a => (w, Ret a)
  | Raise e => (w, Raise e)
  | Get f => advance env (f w) w
  | Put w' m' => advance env m' w'
  | Await a f => (emit (called env a) w, f (io_ok env a))
  end.

(** How a handler has ended, if it has. *)
Definition ended {A} (m : M A) : option (Outcome A) :=
  match m with
  | Ret a => Some (Ok a)
  | Raise e => Some (Err e)
  | _ => None
  end.

(** The handlers of [pool] take turns as [schedule] says, by position. *)
Fixpoint interleave (env : Env) (schedule : list nat) (pool : list (M unit)) (w : World)
  : World * list (M unit) :=
  match schedule with
  | [] => (w, pool)
  | i :: rest =>
      match pool !! i with
      | Some m =>
          let (w', m') := advance env m w in
          interleave env rest (<[i := m']> pool) w'
      | None => interleave env rest pool w
      end
  end.

(** Python truthiness of what [is_valid_voting_reaction] returns
    ([True], [False], or [None] from its bare [return]). *)
Definition truthy (o : option bool) : bool :=
  match o with Some true => true | _ => false end.

(** ** Pure effects of the persistence helpers on the state *)

(** All voter rows of the database. *)
Definition db_voters (d : DB) : list Voters.t :=
  concat (Proposals.voters <$> proposals d).

(** The row a lookup by user and voting message finds. *)
Definition find_voter (d : DB) (user vm : Z) : option Voters.t :=
  find (λ v, bool_decide (Voters.user_id v = user ∧ Voters.voting_message_id v = vm))
       (db_voters d).

(** The proposal that was requested in, or answered by, the given message. *)
Definition find_initiated_by (i : gmap Z Proposals.t) (message : Z) : option Proposals.t :=
  find (λ p, bool_decide (Proposals.message_id p = message
                          ∨ Proposals.bot_response_message_id p = message))
       (map_to_list i).*2.

(** The next primary key of the voters table. *)
Definition fresh_voter_id (d : DB) : Z :=
  1 + foldr Z.max 0 (default 0 <$> (Voters.id <$> db_voters d)).

(** Write the object to its database row and to the dictionary. *)
Definition put_proposal (p : Proposals.t) (s : State) : State :=
  mkState
    (<[Proposals.voting_message_id p := p]> (index s))
    (set_proposals
       (fmap (λ r, if decide (Proposals.id r = Proposals.id p) then p else r))
       (db s)).

(** Delete the row (its voters go with it) and the dictionary entry. *)
Definition drop_proposal (p : Proposals.t) (s : State) : State :=
  mkState
    (delete (Proposals.voting_message_id p) (index s))
    (set_proposals (filter (λ r, Proposals.id r ≠ Proposals.id p)) (db s)).

(** The history row of a proposal closed with [r] at time [now]. *)
Definition history_row (p : Proposals.t) (r : ProposalResult)
    (url : option string) (now : Z) : ProposalHistory.t :=
  ProposalHistory.mk (Proposals.set_voters [] p) (Some r) url (Some now).

Definition put_history (h : ProposalHistory.t) (s : State) : State :=
  set_db (set_history (λ hs, hs ++ [h])) s.

Definition has_history (d : DB) (proposal_id : Z) : Prop :=
  Exists (λ h, ProposalHistory.id h = proposal_id) (history d).

#[global] Instance has_history_dec d i : Decision (has_history d i).
Proof. unfold has_history. apply _. Defined.

(** ** The handlers *)

Section Bot.
Context (env : Env).

Local Abbreviation K := (const env).

  (** A database write: it either goes through or raises before anything
      is changed. *)
Definition db_write (op : DbOp) : M unit :=
    if db_ok env op then ret tt else raise DBError.

  (** *** Persistence helpers ([bot.utils.proposal_utils], [bot.utils.db_utils]) *)

  (** Modelled from the spec: [proposal_utils.get_proposal], absent from
      the sources.  The index lookup of section 4.1; a missing key raises
      the [ValueError] that [grant] catches. *)
Definition get_proposal (voting_message_id : Z) : M Proposals.t :=
    s ← gets state;
    match index s !! voting_message_id with
    | Some p => ret p
    | None => raise ValueError
    end.

  (** Modelled from the spec: [proposal_utils.is_relevant_proposal], absent
      from the sources.  Whether an active proposal has this voting
      message. *)
Definition is_relevant_proposal (message_id : Z) : M bool :=
    s ← gets state;
    ret (bool_decide (is_Some (index s !! message_id))).

  (** Modelled from the spec: [proposal_utils.get_proposal_initiated_by],
      absent from the sources.  The lookup by origin message of section
      4.1. *)
Definition get_proposal_initiated_by (message_id : Z) : M (option Proposals.t) :=
    s ← gets state;
    ret (find_initiated_by (index s) message_id).

  (** Modelled from the spec: [proposal_utils.get_voter], absent from the
      sources.  The voter row of this user for this voting message, read
      from the database. *)
Definition get_voter (user_id voting_message_id : Z) : M (option Voters.t) :=
    s ← gets state;
    ret (find_voter (db s) user_id voting_message_id).

  (** Modelled from the spec: [proposal_utils.add_voter], absent from the
      sources.  Persists the voter row, then appends it to the voters of
      the proposal object the dictionary holds; returns that object as it
      is after the call. *)
Definition add_voter (proposal : Proposals.t) (voter : Voters.t) : M Proposals.t :=
    db_write (insert_voter (Proposals.id proposal)) ;;
    s ← gets state;
    let row := Voters.mk (Some (fresh_voter_id (db s))) (Voters.user_id voter)
                 (Voters.voting_message_id voter) (Some (Proposals.id proposal)) in
    let proposal' := Proposals.set_voters (Proposals.voters proposal ++ [row]) proposal in
    modify (set_state (put_proposal proposal')) ;;
    ret proposal'.

  (** Modelled from the spec: [proposal_utils.remove_voter], absent from
      the sources.  Deletes the voter row from the database and from the
      voters of the proposal object. *)
Definition remove_voter (proposal : Proposals.t) (voter : Voters.t) : M unit :=
    db_write (delete_voter (Voters.id voter)) ;;
    let proposal' :=
      Proposals.set_voters (filter (λ v, v ≠ voter) (Proposals.voters proposal)) proposal in
    modify (set_state (put_proposal proposal')).

  (** Modelled from the spec: [proposal_utils.remove_proposal], absent from
      the sources.  Raises [ValueError] when the dictionary has no such
      proposal; otherwise deletes the row (cascading to its voters) and
      then the dictionary entry. *)
Definition remove_proposal (voting_message_id : Z) : M unit :=
    proposal ← get_proposal voting_message_id;
    db_write (delete_proposal (Proposals.id proposal)) ;;
    modify (set_state (drop_proposal proposal)).

  (** Modelled from the spec: [DBUtil.add_proposals_history_item] (called
      [add_history_item] in [grant]), absent from the sources.  Inserts the
      history row: the proposal's fields, the result and the closing time;
      the primary key rejects a second row for the same proposal. *)
Definition add_proposals_history_item (proposal : Proposals.t) (r : ProposalResult) : M unit :=
    db_write (insert_history (Proposals.id proposal)) ;;
    s ← gets state;
    if decide (has_history (db s) (Proposals.id proposal)) then raise IntegrityError
    else
      let url := jump_url <$> get_message env (VOTING_CHANNEL_ID K)
                                (Proposals.voting_message_id proposal) in
      modify (set_state (put_history (history_row proposal r url (utcnow env)))).

  (** Modelled from the spec: [DBUtil.is_recovery], absent from the
      sources.  The recovery gate of section 4.3. *)
Definition is_recovery : M bool :=
    s ← gets state; ret (recovery (db s)).

  (** *** [bot/vote.py] *)

Definition is_valid_voting_reaction (payload : Payload.t) : M (option bool) :=
    let guild_id := Payload.guild_id payload in
    let channel_id := Payload.channel_id payload in
    let message_id := Payload.message_id payload in
    let user_id := Payload.user_id payload in
    let emoji := Payload.emoji_name payload in
    if decide (emoji ≠ CANCEL_EMOJI_UNICODE K) then ret (Some false) else
    (* guild.get_member on a guild that was not found *)
    member ← (if client_get_guild env guild_id
              then ret (guild_get_member env guild_id user_id)
              else raise AttributeError);
    if negb (validate_roles env member) then ret (Some false) else
    if negb (guild_get_channel env guild_id channel_id) then ret None else
    (if decide (Payload.event_type payload = "REACTION_ADD") then
       incorrect_reaction_proposal ← get_proposal_initiated_by message_id;
       match incorrect_reaction_proposal with
       | Some incorrect =>
           (if decide (channel_id ∈ CHANNELS_TO_REMOVE_HELPER_MESSAGES_AND_REACTIONS K) then
              match fetch_message env channel_id message_id with
              | Some reaction_message =>
                  perform (remove_reaction (msg_channel reaction_message)
                             (msg_id reaction_message) emoji (member_id <$> member))
              | None => raise DiscordError
              end
            else ret tt) ;;
           let voting_message :=
             get_message env (VOTING_CHANNEL_ID K) (Proposals.voting_message_id incorrect) in
           m ← attr member;
           perform (create_dm (member_id m)) ;;
           vm ← attr voting_message;
           perform (dm_send (member_id m)
                      (fmt HELP_MESSAGE_VOTED_INCORRECTLY [("voting_link", a_str (jump_url vm))]))
       | None => ret tt
       end
     else ret tt) ;;
    if decide (channel_id ≠ VOTING_CHANNEL_ID K) then ret (Some false) else
    relevant ← is_relevant_proposal message_id;
    if negb relevant then ret (Some false) else ret (Some true).

  (** The handler of both [except Exception] clauses of [vote.py]. *)
Definition report_error (payload : Payload.t) (doing : string) : M unit :=
    try_except
      (message ← attr (get_message env (Payload.channel_id payload) (Payload.message_id payload));
       perform (reply (msg_channel message) (msg_id message)
                  (fmt (UNEXPECTED_ERROR doing) [("cc", a_str (RESPONSIBLE_MENTION K))])))
      (λ _, log CRITICAL unable_to_reply) ;;
    log CRITICAL (unexpected_error doing).

Definition on_raw_reaction_remove (payload : Payload.t) : M unit :=
    try_except
      (valid ← is_valid_voting_reaction payload;
       if negb (truthy valid) then ret tt else
       proposal ← get_proposal (Payload.message_id payload);
       voter ← get_voter (Payload.user_id payload) (Payload.message_id payload);
       match voter with
       | None =>
           log WARNING (voter_not_in_db (Payload.user_id payload) (Payload.message_id payload))
       | Some voter => remove_voter proposal voter
       end)
      (λ _, report_error payload "handling reaction removal").

  (** The text answered to the proposer; no branch binds it for a reason
      other than the two cancellations. *)
Definition response_to_proposer (proposal : Proposals.t) (reason : ProposalResult)
      (link_to_voting_message : string) : option Text :=
    let mention_author := Proposals.author proposal in
    let template :=
      if Proposals.is_grantless proposal
      then GRANTLESS_PROPOSAL_RESULT_PROPOSER_RESPONSE reason
      else GRANT_PROPOSAL_RESULT_PROPOSER_RESPONSE reason in
    match reason with
    | CANCELLED_BY_PROPOSER =>
        Some (fmt template [("author", a_str mention_author)])
    | CANCELLED_BY_REACHING_THRESHOLD =>
        Some (fmt template [("author", a_str mention_author);
                            ("threshold", a_int (LAZY_CONSENSUS_THRESHOLD K));
                            ("voting_link", a_str link_to_voting_message)])
    | ACCEPTED => None
    end.

Definition edit_in_voting_channel (proposal : Proposals.t) (reason : ProposalResult)
      (link_to_initial_proposer_message : option string) : option Text :=
    match reason with
    | CANCELLED_BY_PROPOSER =>
        Some (fmt (PROPOSAL_CANCELLED_VOTING_CHANNEL reason)
                [("author", a_str (Proposals.author proposal));
                 ("link_to_original_message", a_opt link_to_initial_proposer_message)])
    | CANCELLED_BY_REACHING_THRESHOLD =>
        Some (fmt (PROPOSAL_CANCELLED_VOTING_CHANNEL reason)
                [("threshold", a_int (LAZY_CONSENSUS_THRESHOLD K));
                 ("voters_list", a_users (Voters.user_id <$> Proposals.voters proposal));
                 ("link_to_original_message", a_opt link_to_initial_proposer_message)])
    | ACCEPTED => None
    end.

Definition cancel_proposal (proposal : Proposals.t) (reason : ProposalResult)
      (voting_message : option Message) : M unit :=
    let original_message :=
      get_message env (Proposals.channel_id proposal) (Proposals.message_id proposal) in
    vm ← attr voting_message;
    let link_to_voting_message := jump_url vm in
    let link_to_initial_proposer_message := jump_url <$> original_message in
    match original_message with
    | Some om =>
        perform (add_reaction (msg_channel om) (msg_id om) (REACTION_ON_PROPOSAL_CANCELLED K)) ;;
        if decide (msg_channel vm ≠ msg_channel om) then
          text ← name (response_to_proposer proposal reason link_to_voting_message);
          perform (reply (msg_channel om) (msg_id om) text) ;;
          perform (suppress_reply (msg_channel om) (msg_id om))
        else ret tt
    | None => ret tt
    end ;;
    content ← name (edit_in_voting_channel proposal reason link_to_initial_proposer_message);
    perform (edit (msg_channel vm) (msg_id vm) content true) ;;
    (* Add history item for analytics *)
    add_proposals_history_item proposal reason ;;
    (* Remove the proposal *)
    remove_proposal (Proposals.voting_message_id proposal) ;;
    log INFO (cancelled (Proposals.is_grantless proposal) reason
                (Proposals.voting_message_id proposal)).

Definition on_raw_reaction_add (payload : Payload.t) : M unit :=
    let guild_id := Payload.guild_id payload in
    let channel_id := Payload.channel_id payload in
    let message_id := Payload.message_id payload in
    let user_id := Payload.user_id payload in
    let emoji := Payload.emoji_name payload in
    try_except
      (valid ← is_valid_voting_reaction payload;
       if negb (truthy valid) then
         (* a heart emoji is doubled *)
         if decide (emoji ∈ HEART_EMOJI_LIST K) then
           message ← attr (get_message env channel_id message_id);
           perform (add_reaction (msg_channel message) (msg_id message) emoji)
         else ret tt
       else
       recovering ← is_recovery;
       if (recovering : bool) then
         member ← (if client_get_guild env guild_id
                   then ret (guild_get_member env guild_id user_id)
                   else raise AttributeError);
         m ← attr member;
         perform (create_dm (member_id m)) ;;
         perform (dm_send (member_id m) (fmt VOTING_PAUSED_RECOVERY_RESPONSE [])) ;;
         reaction_message ← attr (get_message env channel_id message_id);
         perform (remove_reaction (msg_channel reaction_message) (msg_id reaction_message)
                    emoji (Some (member_id m))) ;;
         log INFO (rejecting_vote_recovery (member_mention m))
       else
       proposal ← get_proposal message_id;
       let voting_message := get_message env channel_id message_id in
       voter ← get_voter user_id message_id;
       match voter with
       | Some _ => log WARNING (voted_twice user_id message_id)
       | None =>
           (* add_voter appends to the voters of the object [proposal] names *)
           proposal ← add_voter proposal
                        (Voters.mk None user_id (Proposals.voting_message_id proposal) None);
           log INFO (added_vote user_id (length (Proposals.voters proposal))
                       (Proposals.voting_message_id proposal)) ;;
           reacting ← attr (Payload.member payload);
           if decide (Proposals.author proposal = member_mention reacting) then
             cancel_proposal proposal CANCELLED_BY_PROPOSER voting_message
           else if decide (Z.of_nat (length (Proposals.voters proposal))
                           >= Proposals.threshold proposal) then
             cancel_proposal proposal CANCELLED_BY_REACHING_THRESHOLD voting_message
           else
             closed_at ← attr (Proposals.closed_at proposal);
             vm ← attr voting_message;
             perform (send_dm guild_id user_id
                        (fmt HELP_MESSAGE_VOTED_AGAINST
                           [("author", a_str (Proposals.author proposal));
                            ("countdown", a_int (closed_at - utcnow env));
                            ("cancel_emoji", a_str (CANCEL_EMOJI_UNICODE K));
                            ("voting_link", a_str (jump_url vm))]))
       end)
      (λ _, report_error payload "handling reaction adding").

  (** *** [bot/grant.py] *)

  (** [get_message] as [grant] calls it. *)
Definition grant_get (channel message : Z) : M (option Message) :=
    if grant_get_message env then ret (get_message env channel message) else raise NameError.

  (** [voting_channel.send(text)] in [grant]. *)
Definition voting_channel_send (text : Text) : M unit :=
    channel ← name (voting_channel_id env);
    perform (channel_send channel text).

Definition grant (voting_message_id : Z) : M unit :=
    try_except
      (found ← try_except_ValueError
                 (proposal ← get_proposal voting_message_id; ret (Some proposal))
                 (log ERROR (proposal_not_found voting_message_id) ;; ret None);
       match found with
       | None => ret tt
       | Some proposal =>
           let result := ACCEPTED in
           let mention := a_opt (Proposals.mention proposal) in
           let amount := a_amount (Proposals.amount proposal) in
           let author := a_str (Proposals.author proposal) in
           let description := a_str (Proposals.description proposal) in
           original_message ← grant_get (Proposals.channel_id proposal)
                                (Proposals.message_id proposal);
           let link_to_original_message := a_opt (jump_url <$> original_message) in
           voting_message ← grant_get (VOTING_CHANNEL_ID K)
                              (Proposals.voting_message_id proposal);
           (* Applying the grant if the proposal isn't grantless *)
           (if negb (Proposals.is_grantless proposal) then
              vm ← attr voting_message;
              let grant_message :=
                fmt GRANT_COMMAND_MESSAGE
                  [("mention", mention); ("amount", amount); ("description", description);
                   ("voting_url", a_str (jump_url vm))] in
              try_except
                (if client_get_channel env (GRANT_APPLY_CHANNEL_ID K)
                 then perform (channel_send (GRANT_APPLY_CHANNEL_ID K) grant_message)
                 else raise AttributeError)
                (λ e,
                   voting_channel_send
                     (fmt COULD_NOT_APPLY_GRANT
                        [("mention", mention); ("cc", a_str (RESPONSIBLE_MENTION K))]) ;;
                   log CRITICAL (grant_message_failed voting_message_id) ;;
                   raise e)
            else ret tt) ;;
           (* Add "accepted" reactions to all messages *)
           match original_message with
           | Some om =>
               perform (add_reaction (msg_channel om) (msg_id om)
                          (REACTION_ON_PROPOSAL_ACCEPTED K))
           | None => ret tt
           end ;;
           match voting_message with
           | Some vm =>
               perform (add_reaction (msg_channel vm) (msg_id vm)
                          (REACTION_ON_PROPOSAL_ACCEPTED K)) ;;
               perform (add_reaction (msg_channel vm) (msg_id vm) (EMOJI_HOORAY K))
           | None => ret tt
           end ;;
           (* Reply to the original proposal message *)
           match original_message with
           | Some om =>
               voting_channel ← name (voting_channel_id env);
               original_channel ← name (original_channel_id env);
               if decide (voting_channel ≠ original_channel) then
                 if negb (Proposals.is_grantless proposal) then
                   perform (reply (msg_channel om) (msg_id om)
                              (fmt (PROPOSAL_WITH_GRANT_RESULT_PROPOSER_RESPONSE result)
                                 [("mention", mention); ("amount", amount)]))
                 else
                   perform (reply (msg_channel om) (msg_id om)
                              (fmt (GRANTLESS_PROPOSAL_RESULT_PROPOSER_RESPONSE result) []))
               else ret tt
           | None => log WARNING (original_message_removed (Proposals.message_id proposal))
           end ;;
           (* Update the proposal results in the voting channel *)
           match voting_message with
           | Some vm =>
               if negb (Proposals.is_grantless proposal) then
                 perform (edit (msg_channel vm) (msg_id vm)
                            (fmt (PROPOSAL_WITH_GRANT_RESULT_VOTING_CHANNEL_EDITED_MESSAGE result)
                               [("amount", amount); ("mention", mention); ("author", author);
                                ("description", description);
                                ("link_to_original_message", link_to_original_message)])
                            false)
               else
                 perform (edit (msg_channel vm) (msg_id vm)
                            (fmt (GRANTLESS_PROPOSAL_RESULT_VOTING_CHANNEL_EDITED_MESSAGE result)
                               [("author", author); ("description", description);
                                ("link_to_original_message", link_to_original_message)])
                            false)
           | None =>
               (if negb (Proposals.is_grantless proposal) then
                  voting_channel_send
                    (fmt ERROR_MESSAGE_PROPOSAL_WITH_GRANT_VOTING_LINK_REMOVED
                       [("amount", amount); ("mention", mention);
                        ("link_to_original_message", link_to_original_message);
                        ("RESPONSIBLE_MENTION", a_str (RESPONSIBLE_MENTION K))])
                else
                  voting_channel_send
                    (fmt ERROR_MESSAGE_GRANTLESS_PROPOSAL_VOTING_LINK_REMOVED
                       [("author", author);
                        ("link_to_original_message", link_to_original_message);
                        ("RESPONSIBLE_MENTION", a_str (RESPONSIBLE_MENTION K))])) ;;
               log WARNING (voting_message_not_found voting_message_id)
           end ;;
           (* Add history item for analytics *)
           add_proposals_history_item proposal result ;;
           (* Remove proposal from dictionary and DB *)
           try_except_ValueError
             (remove_proposal voting_message_id ;;
              log INFO (approved voting_message_id))
             (log CRITICAL error_removing_proposal)
       end)
      (λ _,
         try_except
           (proposal ← get_proposal voting_message_id;
            if client_get_channel env (Proposals.channel_id proposal) then
              match fetch_message env (Proposals.channel_id proposal) voting_message_id with
              | Some om =>
                  perform (reply (msg_channel om) (msg_id om)
                             (fmt (UNEXPECTED_ERROR "approving the proposal")
                                [("cc", a_str (RESPONSIBLE_MENTION K))]))
              | None => raise DiscordError
              end
            else raise AttributeError)
           (λ _, log CRITICAL unable_to_reply) ;;
         log CRITICAL (unexpected_error "approving the proposal")).
End Bot.

(** * Specification vocabulary *)

(** ** Weakest preconditions

    [wp env m Q w]: running [m] from [w] ends in a world and outcome that
    satisfy [Q]. *)

Definition wp {A} (env : Env) (m : M A) (Q : World → Outcome A → Prop) (w : World) : Prop :=
  Q (final (exec env m w)) (outcome (exec env m w)).


(** ** What a handler run can do to the state *)

(** The row [add_voter] writes for [user], and the proposal object after
    and before a vote. *)
Definition new_row (d : DB) (p : Proposals.t) (user : Z) : Voters.t :=
  Voters.mk (Some (fresh_voter_id d)) user (Proposals.voting_message_id p)
    (Some (Proposals.id p)).

Definition voted (d : DB) (p : Proposals.t) (user : Z) : Proposals.t :=
  Proposals.set_voters (Proposals.voters p ++ [new_row d p user]) p.

Definition unvoted (p : Proposals.t) (v : Voters.t) : Proposals.t :=
  Proposals.set_voters (filter (λ x, x ≠ v) (Proposals.voters p)) p.

(** The rule [on_raw_reaction_add] applies once the vote is recorded: the
    author's own vote first, the threshold second. *)
Definition verdict (p : Proposals.t) (reacting : option Member) : option ProposalResult :=
  match reacting with
  | None => None
  | Some m =>
      if decide (Proposals.author p = member_mention m) then Some CANCELLED_BY_PROPOSER
      else if decide (Z.of_nat (length (Proposals.voters p)) >= Proposals.threshold p)
           then Some CANCELLED_BY_REACHING_THRESHOLD
           else None
  end.

Definition is_history_of (p : Proposals.t) (r : ProposalResult) (h : ProposalHistory.t) : Prop :=
  ProposalHistory.base h = Proposals.set_voters [] p ∧ ProposalHistory.result h = Some r.

(** Closing [p] with result [r]: the history row is written, and then the
    proposal is removed, or is not. *)
Inductive archive_step (p : Proposals.t) (r : ProposalResult) (s : State) : State → Prop :=
| history_only h :
    is_history_of p r h → ¬ has_history (db s) (Proposals.id p) →
    archive_step p r s (put_history h s)
| history_and_removal h :
    is_history_of p r h → ¬ has_history (db s) (Proposals.id p) →
    archive_step p r s (drop_proposal p (put_history h s)).

Inductive add_effect (payload : Payload.t) (s : State) : State → Prop :=
| add_nothing : add_effect payload s s
| add_vote p :
    recovery (db s) = false →
    index s !! Payload.message_id payload = Some p →
    find_voter (db s) (Payload.user_id payload) (Payload.message_id payload) = None →
    add_effect payload s (put_proposal (voted (db s) p (Payload.user_id payload)) s)
| add_vote_archive p r s' :
    recovery (db s) = false →
    index s !! Payload.message_id payload = Some p →
    find_voter (db s) (Payload.user_id payload) (Payload.message_id payload) = None →
    verdict (voted (db s) p (Payload.user_id payload)) (Payload.member payload) = Some r →
    archive_step (voted (db s) p (Payload.user_id payload)) r
      (put_proposal (voted (db s) p (Payload.user_id payload)) s) s' →
    add_effect payload s s'.

Inductive remove_effect (payload : Payload.t) (s : State) : State → Prop :=
| remove_nothing : remove_effect payload s s
| remove_vote p v :
    index s !! Payload.message_id payload = Some p →
    find_voter (db s) (Payload.user_id payload) (Payload.message_id payload) = Some v →
    remove_effect payload s (put_proposal (unvoted p v) s).

Inductive grant_effect (voting_message_id : Z) (s : State) : State → Prop :=
| grant_nothing : grant_effect voting_message_id s s
| grant_archive p s' :
    index s !! voting_message_id = Some p →
    archive_step p ACCEPTED s s' →
    grant_effect voting_message_id s s'.

(** ** Consistent states

    The dictionary mirrors the proposals table; primary keys are unique;
    every voter row carries the keys of the proposal that owns it; a user
    has at most one voter row per proposal. *)
Record consistent (s : State) : Prop := {
  index_mirrors_db : ∀ vm p,
    index s !! vm = Some p ↔ p ∈ proposals (db s) ∧ Proposals.voting_message_id p = vm;
  ids_unique : NoDup (Proposals.id <$> proposals (db s));
  voters_of_parent : ∀ p v,
    p ∈ proposals (db s) → v ∈ Proposals.voters p →
    Voters.voting_message_id v = Proposals.voting_message_id p
    ∧ Voters.grant_proposal_id v = Some (Proposals.id p);
  one_vote_per_user : ∀ p,
    p ∈ proposals (db s) → NoDup (Voters.user_id <$> Proposals.voters p)
}.

(** A live proposal: in the dictionary under its voting message, in the
    proposals table, and not yet in the history. *)
Definition Active (s : State) (p : Proposals.t) : Prop :=
  index s !! Proposals.voting_message_id p = Some p
  ∧ p ∈ proposals (db s)
  ∧ ¬ has_history (db s) (Proposals.id p).

(** [p] was closed with result [r] between [s] and [s']: it is gone from
    the dictionary and from the proposals table, and the history has
    grown by exactly one row, for [p] and with that result. *)
Definition closed_with (s s' : State) (p : Proposals.t) (r : ProposalResult) : Prop :=
  index s' !! Proposals.voting_message_id p = None
  ∧ (∀ q, q ∈ proposals (db s') → Proposals.id q ≠ Proposals.id p)
  ∧ ∃ h, history (db s') = history (db s) ++ [h]
         ∧ ProposalHistory.id h = Proposals.id p
         ∧ ProposalHistory.result h = Some r.

(** Every Discord call and every database write goes through. *)
Definition cooperative (env : Env) : Prop :=
  (∀ a, io_ok env a = true) ∧ (∀ op, db_ok env op = true).

(** ** The inbound calls

    A vote cast, a vote withdrawn, an elapsed timer; [key] is the voting
    message the call is about. *)
Inductive Call :=
| vote_add (payload : Payload.t)
| vote_remove (payload : Payload.t)
| timer_elapsed (voting_message_id : Z).

Definition handle (env : Env) (c : Call) : M unit :=
  match c with
  | vote_add payload => on_raw_reaction_add env payload
  | vote_remove payload => on_raw_reaction_remove env payload
  | timer_elapsed voting_message_id => grant env voting_message_id
  end.

Definition key (c : Call) : Z :=
  match c with
  | vote_add payload | vote_remove payload => Payload.message_id payload
  | timer_elapsed voting_message_id => voting_message_id
  end.

Definition is_vote_add (c : Call) : Prop :=
  match c with vote_add _ => True | _ => False end.

Definition effect (c : Call) : State → State → Prop :=
  match c with
  | vote_add payload => add_effect payload
  | vote_remove payload => remove_effect payload
  | timer_elapsed voting_message_id => grant_effect voting_message_id
  end.

(** Calls handled one after the other, each under what the outside
    answers at that time. *)
Fixpoint run (cs : list (Env * Call)) (w : World) : World :=
  match cs with
  | [] => w
  | (env, c) :: cs => run cs (final (exec env (handle env c) w))
  end.

(** Every call of the sequence passes the validity check when its turn
    comes. *)
Fixpoint all_valid (env : Env) (payloads : list Payload.t) (w : World) : Prop :=
  match payloads with
  | [] => True
  | payload :: payloads =>
      outcome (exec env (is_valid_voting_reaction env payload) w) = Ok (Some true)
      ∧ all_valid env payloads (final (exec env (on_raw_reaction_add env payload) w))
  end.

(** The recovery gate, set from outside. *)
Definition gate (b : bool) (w : World) : World :=
  set_state (set_db (set_recovery b)) w.

(** ** The voters table as [schemas.py] declares it

    [id] is the primary key; [grant_proposal_id] references
    [proposals.id]; no other constraint is declared. *)
Definition voters_table_constraints (ps : list Proposals.t) (rows : list Voters.t) : Prop :=
  NoDup (Voters.id <$> rows)
  ∧ Forall (λ v, is_Some (Voters.id v)) rows
  ∧ Forall (λ v, ∀ i, Voters.grant_proposal_id v = Some i → i ∈ Proposals.id <$> ps) rows.

Definition unique_user_proposal (rows : list Voters.t) : Prop :=
  NoDup ((λ v, (Voters.user_id v, Voters.grant_proposal_id v)) <$> rows).

(** ** A small server, for examples *)

Definition example_const : Const := {|
  CANCEL_EMOJI_UNICODE := "x";
  HEART_EMOJI_LIST := ["heart"];
  VOTING_CHANNEL_ID := 10;
  CHANNELS_TO_REMOVE_HELPER_MESSAGES_AND_REACTIONS := [11];
  GRANT_APPLY_CHANNEL_ID := 12;
  LAZY_CONSENSUS_THRESHOLD := 3;
  REACTION_ON_PROPOSAL_CANCELLED := "no";
  REACTION_ON_PROPOSAL_ACCEPTED := "yes";
  EMOJI_HOORAY := "hooray";
  RESPONSIBLE_MENTION := "<@1>"
|}.

Definition example_member (user : Z) : Member :=
  {| member_id := user;
     member_mention := if decide (user = 7) then "<@7>" else "<@someone>" |}.

(** Everybody is a known member with the voting role, every message
    exists, every call and every write goes through. *)
Definition example_env : Env := {|
  const := example_const;
  client_get_guild := λ _, true;
  guild_get_member := λ _ user, Some (example_member user);
  validate_roles := λ _, true;
  guild_get_channel := λ _ _, true;
  client_get_channel := λ _, true;
  get_message := λ c m, Some {| msg_channel := c; msg_id := m; jump_url := "url" |};
  fetch_message := λ c m, Some {| msg_channel := c; msg_id := m; jump_url := "url" |};
  io_ok := λ _, true;
  db_ok := λ _, true;
  utcnow := 1000;
  grant_get_message := true;
  voting_channel_id := Some 10;
  original_channel_id := Some 11
|}.

(** The same, except that deleting a proposal row fails. *)
Definition env_delete_fails : Env := {|
  const := example_const;
  client_get_guild := client_get_guild example_env;
  guild_get_member := guild_get_member example_env;
  validate_roles := validate_roles example_env;
  guild_get_channel := guild_get_channel example_env;
  client_get_channel := client_get_channel example_env;
  get_message := get_message example_env;
  fetch_message := fetch_message example_env;
  io_ok := λ _, true;
  db_ok := λ op, match op with delete_proposal _ => false | _ => true end;
  utcnow := 1000;
  grant_get_message := true;
  voting_channel_id := Some 10;
  original_channel_id := Some 11
|}.

(** A grantless proposal by user 7, requested in message 100 of channel
    11, voted on in message 200 of the voting channel. *)
Definition proposal_with_threshold (threshold : Z) : Proposals.t := {|
  Proposals.id := 1;
  Proposals.message_id := 100;
  Proposals.channel_id := 11;
  Proposals.author := "<@7>";
  Proposals.voting_message_id := 200;
  Proposals.is_grantless := true;
  Proposals.mention := None;
  Proposals.amount := None;
  Proposals.description := "a proposal";
  Proposals.timer := 3600;
  Proposals.threshold := threshold;
  Proposals.submitted_at := 900;
  Proposals.bot_response_message_id := 101;
  Proposals.voters := [];
  Proposals.closed_at := Some 4500
|}.

Definition world_with (p : Proposals.t) : World := {|
  state := {| index := {[ Proposals.voting_message_id p := p ]};
              db := {| proposals := [p]; history := []; recovery := false |} |};
  trace := []
|}.

Definition example_proposal : Proposals.t := proposal_with_threshold 3.
Definition example_world : World := world_with example_proposal.

(** The cancel emoji put on the voting message by [user]. *)
Definition example_vote (user : Z) : Payload.t := {|
  Payload.emoji_name := "x";
  Payload.guild_id := 1;
  Payload.channel_id := 10;
  Payload.message_id := 200;
  Payload.user_id := user;
  Payload.event_type := "REACTION_ADD";
  Payload.member := Some (example_member user)
|}.

(** The example world after the author's own vote has closed the proposal. *)
Definition closed_world : World :=
  final (exec example_env (on_raw_reaction_add example_env (example_vote 7)) example_world).

(** [p] is still a live proposal of [s]: its row is in the proposals
    table and the dictionary holds it under its voting message. *)
Definition live_in (s : State) (p : Proposals.t) : Prop :=
  ∃ p', p' ∈ proposals (db s)
        ∧ Proposals.id p' = Proposals.id p
        ∧ index s !! Proposals.voting_message_id p = Some p'.

(** [p] was archived between [s] and [s']. *)
Definition archived_between (s s' : State) (p : Proposals.t) : Prop :=
  ¬ has_history (db s) (Proposals.id p) ∧ has_history (db s') (Proposals.id p).

(** A computation that neither reads nor writes the recovery gate: run
    with the gate set to [b], it does what it does otherwise. *)
Definition gate_blind {A} (env : Env) (m : M A) : Prop :=
  ∀ b w, exec env m (gate b w) = (gate b (final (exec env m w)), outcome (exec env m w)).

(** The example world after user 5 has voted, and that vote withdrawn. *)
Definition voted_world : World :=
  final (exec example_env (on_raw_reaction_add example_env (example_vote 5)) example_world).

Definition example_withdrawal (user : Z) : Payload.t := {|
  Payload.emoji_name := "x";
  Payload.guild_id := 1;
  Payload.channel_id := 10;
  Payload.message_id := 200;
  Payload.user_id := user;
  Payload.event_type := "REACTION_REMOVE";
  Payload.member := None
|}.

(** The result a call gives the proposal it closes: an elapsed timer
    accepts; a vote cancels, by the proposer when the voter is the author
    and by threshold otherwise. *)
Definition result_matches (c : Call) (s : State) (p : Proposals.t) (r : ProposalResult) : Prop :=
  match c with
  | timer_elapsed _ => r = ACCEPTED
  | vote_add payload =>
      verdict (voted (db s) p (Payload.user_id payload)) (Payload.member payload) = Some r
  | vote_remove _ => False
  end.

(** The cancel emoji put by [user] on the message the proposal was
    requested in, instead of the voting message. *)
Definition wrong_message_vote (user : Z) : Payload.t := {|
  Payload.emoji_name := "x";
  Payload.guild_id := 1;
  Payload.channel_id := 11;
  Payload.message_id := 100;
  Payload.user_id := user;
  Payload.event_type := "REACTION_ADD";
  Payload.member := Some (example_member user)
|}.

(** A heart put by [user] on some message of another channel. *)
Definition heart_reaction (user : Z) : Payload.t := {|
  Payload.emoji_name := "heart";
  Payload.guild_id := 1;
  Payload.channel_id := 13;
  Payload.message_id := 300;
  Payload.user_id := user;
  Payload.event_type := "REACTION_ADD";
  Payload.member := Some (example_member user)
|}.

(** ** Two votes at once *)

(** The voting message is edited to the text of a cancelled proposal. *)
Definition is_cancellation (e : Event) : bool :=
  match e with
  | Did (edit _ _ text _) =>
      match template text with
      | PROPOSAL_CANCELLED_VOTING_CHANNEL _ => true
      | _ => false
      end
  | _ => false
  end.

(** How often a cancellation was announced. *)
Definition cancellations (t : list Event) : nat :=
  length (filter (λ e, is_cancellation e) t).

(** A proposal with threshold 2 after user 5 has voted: one vote short. *)
Definition one_short_world : World :=
  final (exec example_env (on_raw_reaction_add example_env (example_vote 5))
           (world_with (proposal_with_threshold 2))).

Definition one_short_proposal : Proposals.t :=
  voted (db (state (world_with (proposal_with_threshold 2)))) (proposal_with_threshold 2) 5.

(** A handler that has ended with [o]. *)
Definition of_outcome {A} (o : Outcome A) : M A :=
  match o with Ok a => Ret a | Err e => Raise e end.

(** The handlers of the votes of users 6 and 8. *)
Definition two_votes : list (M unit) :=
  [on_raw_reaction_add example_env (example_vote 6);
   on_raw_reaction_add example_env (example_vote 8)].

(** ** A proposal as the schema declares it *)

(** The example proposal without a [closed_at], which [Proposals] does not
    declare. *)
Definition proposal_as_declared : Proposals.t := {|
  Proposals.id := 1;
  Proposals.message_id := 100;
  Proposals.channel_id := 11;
  Proposals.author := "<@7>";
  Proposals.voting_message_id := 200;
  Proposals.is_grantless := true;
  Proposals.mention := None;
  Proposals.amount := None;
  Proposals.description := "a proposal";
  Proposals.timer := 3600;
  Proposals.threshold := 3;
  Proposals.submitted_at := 900;
  Proposals.bot_response_message_id := 101;
  Proposals.voters := [];
  Proposals.closed_at := None
|}.

(** What the voter of a counted vote gets: the message with the remaining
    time when the proposal object has a [closed_at], the error reply in the
    channel when it has none. *)
Definition after_counted_vote (env : Env) (payload : Payload.t) (p : Proposals.t)
    (vmsg : Message) : list Event :=
  match Proposals.closed_at p with
  | Some closed_at =>
      [Did (send_dm (Payload.guild_id payload) (Payload.user_id payload)
              (fmt HELP_MESSAGE_VOTED_AGAINST
                 [("author", a_str (Proposals.author p));
                  ("countdown", a_int (closed_at - utcnow env));
                  ("cancel_emoji", a_str (CANCEL_EMOJI_UNICODE (const env)));
                  ("voting_link", a_str (jump_url vmsg))]))]
  | None =>
      [Did (reply (msg_channel vmsg) (msg_id vmsg)
              (fmt (UNEXPECTED_ERROR "handling reaction adding")
                 [("cc", a_str (RESPONSIBLE_MENTION (const env)))]));
       Logged CRITICAL (unexpected_error "handling reaction adding")]
  end.


(** The votes that close a proposal: one by its author, or as many
    distinct voters as the threshold asks for. *)
Definition closing_votes (p : Proposals.t) (payloads : list Payload.t) : Prop :=
  (∃ payload m, payload ∈ payloads
                ∧ Payload.member payload = Some m
                ∧ Proposals.author p = member_mention m)
  ∨ Z.of_nat (size (list_to_set ((Voters.user_id <$> Proposals.voters p)
                                 ++ (Payload.user_id <$> payloads)) : gset Z))
    >= Proposals.threshold p.

(** ** What the handlers leave in the trace *)

(** Calls made one after the other, up to the first that fails. *)
Fixpoint attempts (env : Env) (calls : list Action) : list Event :=
  match calls with
  | [] => []
  | a :: calls => if io_ok env a then Did a :: attempts env calls else [Failed a]
  end.

(** The events of an error report of [vote.py]: the reply in the channel,
    when the message is found and the reply goes through, and the CRITICAL
    records. *)
Definition report_events (env : Env) (payload : Payload.t) (doing : string) : list Event :=
  match get_message env (Payload.channel_id payload) (Payload.message_id payload) with
  | Some message =>
      let a := reply (msg_channel message) (msg_id message)
                 (fmt (UNEXPECTED_ERROR doing)
                    [("cc", a_str (RESPONSIBLE_MENTION (const env)))]) in
      if io_ok env a then [Did a] else [Failed a; Logged CRITICAL unable_to_reply]
  | None => [Logged CRITICAL unable_to_reply]
  end
  ++ [Logged CRITICAL (unexpected_error doing)].

(** What [on_raw_reaction_add] itself does about a reaction that is no
    valid vote, [o] being how the validity check ended: a check that
    raised is reported; a heart is doubled, and reported when that fails;
    anything else is left alone. *)
Definition after_invalid_reaction (env : Env) (payload : Payload.t)
    (o : Outcome (option bool)) : list Event :=
  let doing := "handling reaction adding" in
  match o with
  | Err _ => report_events env payload doing
  | Ok _ =>
      if decide (Payload.emoji_name payload ∈ HEART_EMOJI_LIST (const env)) then
        match get_message env (Payload.channel_id payload) (Payload.message_id payload) with
        | Some message =>
            let a := add_reaction (msg_channel message) (msg_id message)
                       (Payload.emoji_name payload) in
            if io_ok env a then [Did a] else Failed a :: report_events env payload doing
        | None => report_events env payload doing
        end
      else []
  end.

(** The calls of the validity check for member [m], who put the cancel
    emoji on the message [reaction_message] that started a live proposal
    with the voting message [voting_message]: the reaction is taken back
    in the channels configured for it, and the member is sent the link. *)
Definition wrong_message_calls (env : Env) (payload : Payload.t) (m : Member)
    (reaction_message : option Message) (voting_message : Message) : list Action :=
  match reaction_message with
  | Some rm =>
      [remove_reaction (msg_channel rm) (msg_id rm) (Payload.emoji_name payload)
         (Some (member_id m))]
  | None => []
  end
  ++ [create_dm (member_id m);
      dm_send (member_id m)
        (fmt HELP_MESSAGE_VOTED_INCORRECTLY [("voting_link", a_str (jump_url voting_message))])].

(** The example server without its guild, as for a reaction in a direct
    message. *)
Definition env_no_guild : Env := {|
  const := example_const;
  client_get_guild := λ _, false;
  guild_get_member := guild_get_member example_env;
  validate_roles := validate_roles example_env;
  guild_get_channel := guild_get_channel example_env;
  client_get_channel := client_get_channel example_env;
  get_message := get_message example_env;
  fetch_message := fetch_message example_env;
  io_ok := λ _, true;
  db_ok := λ _, true;
  utcnow := 1000;
  grant_get_message := true;
  voting_channel_id := Some 10;
  original_channel_id := Some 11
|}.

(** The example server on which hiding the embeds of a reply
    ([suppress_reply]) fails. *)
Definition env_suppress_fails : Env := {|
  const := example_const;
  client_get_guild := client_get_guild example_env;
  guild_get_member := guild_get_member example_env;
  validate_roles := validate_roles example_env;
  guild_get_channel := guild_get_channel example_env;
  client_get_channel := client_get_channel example_env;
  get_message := get_message example_env;
  fetch_message := fetch_message example_env;
  io_ok := λ a, match a with suppress_reply _ _ => false | _ => true end;
  db_ok := λ _, true;
  utcnow := 1000;
  grant_get_message := true;
  voting_channel_id := Some 10;
  original_channel_id := Some 11
|}.

(** ** What a run leaves in the trace *)

(** A failed call waits for its report: the flag goes up with a failed
    call and down with a CRITICAL record. *)
Definition pending (b : bool) (evs : list Event) : bool :=
  foldl (λ b e, match e with
                | Failed _ => true
                | Logged CRITICAL _ => false
                | _ => b
                end) b evs.

Definition is_did (e : Event) : bool :=
  match e with Did _ => true | _ => false end.

(** Neither a failed call nor a CRITICAL record. *)
Definition is_quiet (e : Event) : bool :=
  match e with
  | Failed _ | Logged CRITICAL _ => false
  | _ => true
  end.

(** The calls of the validity check, which helps a member who voted on the
    wrong message. *)
Definition is_onboarding (e : Event) : bool :=
  match e with
  | Did (remove_reaction _ _ _ _) | Failed (remove_reaction _ _ _ _)
  | Did (create_dm _) | Failed (create_dm _)
  | Did (dm_send _ _) | Failed (dm_send _ _) => true
  | _ => false
  end.

(** The calls and records of an error report. *)
Definition is_report (e : Event) : bool :=
  match e with
  | Did (reply _ _ text) | Failed (reply _ _ text) =>
      match template text with UNEXPECTED_ERROR _ => true | _ => false end
  | Logged CRITICAL unable_to_reply | Logged CRITICAL (unexpected_error _) => true
  | _ => false
  end.

Definition is_ok {A} (o : Outcome A) : bool :=
  match o with Ok _ => true | Err _ => false end.

(** The reply of an error report. *)
Definition is_error_reply (a : Action) : bool :=
  match a with
  | reply _ _ text =>
      match template text with UNEXPECTED_ERROR _ => true | _ => false end
  | _ => false
  end.

(** A step of the handler proper that failed: a failed call other than the
    reply of the error report. *)
Definition failed_step (e : Event) : bool :=
  match e with
  | Failed a => negb (is_error_reply a)
  | _ => false
  end.

(** * Reasoning about handler runs *)

Lemma exec_bind {A B} env (m : M A) (k : A → M B) w :
  exec env (m ≫= k) w
  = match exec env m w with
    | (w', Ok a) => exec env (k a) w'
    | (w', Err e) => (w', Err e)
    end.
Proof.
  unfold mbind, M_bind. revert w.
  induction m as [a|e|f IH|w0 m IH|a f IH]; intros w; simpl; auto.
Qed.

Lemma exec_try_except {A} env (m : M A) (h : Exn → M A) w :
  exec env (try_except m h) w
  = match exec env m w with
    | (w', Ok a) => (w', Ok a)
    | (w', Err e) => exec env (h e) w'
    end.
Proof.
  revert w. induction m as [a|e|f IH|w0 m IH|a f IH]; intros w; simpl; auto.
Qed.

Section WP.
Context {A B : Type} (env : Env).
Implicit Types (w : World) (Q : World → Outcome A → Prop).

Lemma wp_ret (a : A) Q w : Q w (Ok a) → wp env (ret a) Q w.
Proof. done. Qed.

Lemma wp_mret (a : A) Q w : Q w (Ok a) → wp env (mret a) Q w.
Proof. done. Qed.

Lemma wp_raise e Q w : Q w (Err e) → wp env (raise e) Q w.
Proof. done. Qed.

Lemma wp_bind (m : M B) (k : B → M A) Q w :
    wp env m (λ w' o, match o with Ok b => wp env (k b) Q w' | Err e => Q w' (Err e) end) w →
    wp env (m ≫= k) Q w.
Proof.
    unfold wp. rewrite exec_bind. destruct (exec env m w) as [w' [b|e]]; done.
Qed.

Lemma wp_try_except (m : M A) (h : Exn → M A) Q w :
    wp env m (λ w' o, match o with Ok a => Q w' (Ok a) | Err e => wp env (h e) Q w' end) w →
    wp env (try_except m h) Q w.
Proof.
    unfold wp. rewrite exec_try_except. destruct (exec env m w) as [w' [a|e]]; done.
Qed.

Lemma wp_mono (m : M A) (Q Q' : World → Outcome A → Prop) w :
    wp env m Q w → (∀ w' o, Q w' o → Q' w' o) → wp env m Q' w.
Proof. unfold wp. auto. Qed.

Lemma wp_gets (f : World → A) Q w : Q w (Ok (f w)) → wp env (gets f) Q w.
Proof. done. Qed.

Lemma wp_attr (o : option A) Q w :
    (∀ a, o = Some a → Q w (Ok a)) → (o = None → Q w (Err AttributeError)) →
    wp env (attr o) Q w.
Proof. destruct o; unfold wp; simpl; auto. Qed.

Lemma wp_name (o : option A) Q w :
    (∀ a, o = Some a → Q w (Ok a)) → (o = None → Q w (Err NameError)) →
    wp env (name o) Q w.
Proof. destruct o; unfold wp; simpl; auto. Qed.
End WP.

(** A step that leaves the state alone can be skipped over. *)
Lemma wp_bind_frame {A B} env (m : M B) (k : B → M A) (Q : World → Outcome A → Prop) w :
  wp env m (λ w' _, state w' = state w) w →
  (∀ w' o, state w' = state w →
     match o with Ok b => wp env (k b) Q w' | Err e => Q w' (Err e) end) →
  wp env (m ≫= k) Q w.
Proof.
  intros Hm Hk. apply wp_bind. eapply wp_mono; [exact Hm|].
  intros w' o Hs. by apply Hk.
Qed.

Lemma wp_try_except_ValueError {A} env (m h : M A) (Q : World → Outcome A → Prop) w :
  wp env m (λ w' o, match o with
                | Ok a => Q w' (Ok a)
                | Err e => if decide (e = ValueError) then wp env h Q w' else Q w' (Err e)
                end) w →
  wp env (try_except_ValueError m h) Q w.
Proof.
  intros H. apply wp_try_except. eapply wp_mono; [exact H|].
  intros w' [a|e]; [done|]. by destruct (decide (e = ValueError)).
Qed.

Lemma wp_modify env (f : World → World) (Q : World → Outcome unit → Prop) w :
  Q (f w) (Ok tt) → wp env (modify f) Q w.
Proof. done. Qed.

Lemma wp_log env l r (Q : World → Outcome unit → Prop) w :
  Q (emit (Logged l r) w) (Ok tt) → wp env (log l r) Q w.
Proof. done. Qed.

Lemma wp_perform env a (Q : World → Outcome unit → Prop) w :
  (io_ok env a = true → Q (emit (Did a) w) (Ok tt)) →
  (io_ok env a = false → Q (emit (Failed a) w) (Err DiscordError)) →
  wp env (perform a) Q w.
Proof. unfold wp, perform; simpl. unfold called. destruct (io_ok env a); simpl; auto. Qed.

Lemma wp_db_write env op (Q : World → Outcome unit → Prop) w :
  (db_ok env op = true → Q w (Ok tt)) →
  (db_ok env op = false → Q w (Err DBError)) →
  wp env (db_write env op) Q w.
Proof. unfold wp, db_write. destruct (db_ok env op); simpl; auto. Qed.

Lemma wp_perform_ok env a (Q : World → Outcome unit → Prop) w :
  io_ok env a = true → Q (emit (Did a) w) (Ok tt) → wp env (perform a) Q w.
Proof. intros H HQ. apply wp_perform; [done|congruence]. Qed.

Lemma wp_db_write_ok env op (Q : World → Outcome unit → Prop) w :
  db_ok env op = true → Q w (Ok tt) → wp env (db_write env op) Q w.
Proof. intros H HQ. apply wp_db_write; [done|congruence]. Qed.

(** One step of symbolic execution of a handler. *)
Ltac wp_step :=
  cbv beta iota zeta;
  lazymatch goal with
  | |- wp _ (mbind _ _) _ _ => apply wp_bind
  | |- wp _ (ret _) _ _ => apply wp_ret
  | |- wp _ (mret _) _ _ => apply wp_mret
  | |- wp _ (raise _) _ _ => apply wp_raise
  | |- wp _ (try_except_ValueError _ _) _ _ => apply wp_try_except_ValueError
  | |- wp _ (try_except _ _) _ _ => apply wp_try_except
  | |- wp _ (gets _) _ _ => apply wp_gets
  | |- wp _ (modify _) _ _ => apply wp_modify
  | |- wp _ (log _ _) _ _ => apply wp_log
  | |- wp _ (attr _) _ _ => apply wp_attr; [intros ? ?|intros ?]
  | |- wp _ (name _) _ _ => apply wp_name; [intros ? ?|intros ?]
  | |- wp _ (perform _) _ _ => apply wp_perform; intros ?
  | |- wp _ (db_write _ _) _ _ => apply wp_db_write; intros ?
  | |- wp _ (if ?b then _ else _) _ _ => destruct b eqn:?
  | |- wp _ (match ?x with _ => _ end) _ _ => destruct x eqn:?
  | |- if decide (?e = ValueError) then _ else _ => destruct (decide (e = ValueError))
  | |- match ?x with Ok _ => _ | Err _ => _ end => destruct x
  end.

Ltac wp_steps := repeat wp_step; cbv beta iota zeta.

(** ** What each handler can do to the state *)

Ltac tidy :=
  cbn [state trace emit set_state final outcome fst snd] in *;
  repeat match goal with
    | H : negb _ = false |- _ => apply negb_false_iff in H
    | H : negb _ = true |- _ => apply negb_true_iff in H
    | H : bool_decide _ = true |- _ => apply bool_decide_eq_true in H
    | H : bool_decide _ = false |- _ => apply bool_decide_eq_false in H
    | H : ¬ (?a ≠ ?b) |- _ =>
        assert (a = b) by (destruct (decide (a = b)); [done|contradiction]); clear H
    | H : decide _ = _ |- _ => clear H
    end.

(** The validity check changes nothing in the state, and accepts only the
    cancel emoji, in the voting channel, on the voting message of a live
    proposal. *)
Lemma is_valid_spec env payload w :
  wp env (is_valid_voting_reaction env payload)
     (λ w' o, state w' = state w ∧
        (o = Ok (Some true) →
           is_Some (index (state w) !! Payload.message_id payload) ∧
           Payload.emoji_name payload = CANCEL_EMOJI_UNICODE (const env) ∧
           Payload.channel_id payload = VOTING_CHANNEL_ID (const env) ∧
           client_get_guild env (Payload.guild_id payload) = true)) w.
Proof.
  unfold is_valid_voting_reaction, get_proposal_initiated_by, is_relevant_proposal.
  wp_steps.
  all: try (split; [reflexivity | discriminate]).
  all: split; [reflexivity | intros _]; tidy; done.
Qed.

Lemma wp_is_valid env payload (Q : World → Outcome (option bool) → Prop) w :
  (∀ w' o, state w' = state w →
     (o = Ok (Some true) →
        is_Some (index (state w) !! Payload.message_id payload) ∧
        Payload.emoji_name payload = CANCEL_EMOJI_UNICODE (const env) ∧
        Payload.channel_id payload = VOTING_CHANNEL_ID (const env) ∧
        client_get_guild env (Payload.guild_id payload) = true) →
     Q w' o) →
  wp env (is_valid_voting_reaction env payload) Q w.
Proof.
  intros H. eapply wp_mono; [apply is_valid_spec|]. intros w' o [? ?]. by apply H.
Qed.

(** Reporting an error touches the trace only, and never raises. *)
Lemma wp_report_error env payload doing (Q : World → Outcome unit → Prop) w :
  (∀ w', state w' = state w → Q w' (Ok tt)) →
  wp env (report_error env payload doing) Q w.
Proof.
  intros H. unfold report_error. wp_steps; apply H; reflexivity.
Qed.

(** Symbolic execution through the two lemmas above, and forgetting the
    traces of the intermediate worlds. *)
Ltac hstep :=
  first [ apply wp_is_valid; intros ? ? ? ?
        | apply wp_report_error; intros ? ?
        | lazymatch goal with
          | |- wp _ (mbind _ ?m) _ _ =>
              lazymatch m with
              | match _ with _ => _ end =>
                  apply wp_bind_frame;
                  [ solve [repeat wp_step; tidy; reflexivity] | intros ? ? ? ]
              end
          end
        | wp_step ].

Ltac same_state :=
  tidy;
  repeat match goal with
    | H : state ?w' = _ |- _ =>
        is_var w'; destruct w' as [? ?]; cbn [state] in H; subst
    end;
  tidy.

Lemma index_put_history h s : index (put_history h s) = index s.
Proof. done. Qed.

Lemma lookup_put_proposal p s :
  index (put_proposal p s) !! Proposals.voting_message_id p = Some p.
Proof. apply lookup_insert_eq. Qed.

(** Leaves of the symbolic execution: recognising the recorded vote, a
    second lookup of the proposal just written, and the two ways an
    archive ends. *)
Ltac fold_voted :=
  cbn [Voters.user_id Voters.voting_message_id Voters.id Voters.grant_proposal_id] in *;
  repeat match goal with
    | |- context [Proposals.set_voters (Proposals.voters ?t ++ [Voters.mk (Some (fresh_voter_id ?d)) ?u _ _]) ?t] =>
        change (Proposals.set_voters (Proposals.voters t ++ [Voters.mk (Some (fresh_voter_id d)) u (Proposals.voting_message_id t) (Some (Proposals.id t))]) t)
          with (voted d t u) in *
    end.

Ltac relookup :=
  repeat match goal with
    | H : index (put_history _ _) !! _ = _ |- _ => rewrite index_put_history in H
    | H : index (put_proposal ?p _) !! Proposals.voting_message_id ?p = _ |- _ =>
        rewrite lookup_put_proposal in H
    end;
  simplify_eq.

Ltac archive_leaf :=
  first [ eapply history_and_removal | eapply history_only ];
  [ split; reflexivity | assumption ].

Lemma remove_spec env payload w :
  wp env (on_raw_reaction_remove env payload)
     (λ w' o, o = Ok tt ∧ remove_effect payload (state w) (state w')) w.
Proof.
  unfold on_raw_reaction_remove, get_proposal, get_voter, remove_voter.
  repeat hstep; same_state.
  all: split; [done|constructor; done].
Qed.

Lemma add_spec env payload w :
  wp env (on_raw_reaction_add env payload)
     (λ w' o, o = Ok tt ∧ add_effect payload (state w) (state w')) w.
Proof.
  unfold on_raw_reaction_add, cancel_proposal, add_proposals_history_item, remove_proposal,
    add_voter, get_proposal, get_voter, is_recovery.
  repeat hstep; same_state.
  all: try (split; [done|constructor; done]).
  all: fold_voted; relookup.
  all: split; [done|].
  all: match goal with
       | |- add_effect _ _ ?s =>
           match s with
           | context [history_row _ ?r _ _] =>
               eapply (add_vote_archive _ _ _ r); [done|done|done| |archive_leaf]
           end
       end.
  all: match goal with H : Payload.member _ = Some _ |- _ => unfold verdict; rewrite H end.
  all: repeat case_decide; done.
Qed.

Lemma grant_spec env vm w :
  wp env (grant env vm)
     (λ w' o, o = Ok tt ∧ grant_effect vm (state w) (state w')) w.
Proof.
  unfold grant, add_proposals_history_item, remove_proposal, get_proposal, grant_get,
    voting_channel_send.
  repeat hstep; same_state.
  all: try (split; [done|constructor; done]).
  all: relookup.
  all: try (split; [done|constructor; done]).
  all: split; [done|].
  all: eapply grant_archive; [eassumption|archive_leaf].
Qed.

(** ** Consistency is kept *)

Lemma NoDup_fmap_eq {A B} (f : A → B) (l : list A) x y :
  NoDup (f <$> l) → x ∈ l → y ∈ l → f x = f y → x = y.
Proof.
  induction l as [|a l IH]; intros Hnd Hx Hy Hf; [by apply elem_of_nil in Hx|].
  rewrite fmap_cons in Hnd. apply NoDup_cons in Hnd as [Ha Hnd].
  apply elem_of_cons in Hx as [->|Hx]; apply elem_of_cons in Hy as [->|Hy]; auto.
  - exfalso. apply Ha. rewrite Hf. by apply list_elem_of_fmap_2.
  - exfalso. apply Ha. rewrite <- Hf. by apply list_elem_of_fmap_2.
Qed.

Lemma sublist_fmap_filter {A B} (f : A → B) (P : A → Prop) `{∀ x, Decision (P x)} (l : list A) :
  NoDup (f <$> l) → NoDup (f <$> filter P l).
Proof.
  intros Hnd. eapply sublist_NoDup; [exact Hnd|].
  apply fmap_sublist, sublist_filter.
Qed.

Lemma elem_of_db_voters d v :
  v ∈ db_voters d ↔ ∃ p, p ∈ proposals d ∧ v ∈ Proposals.voters p.
Proof.
  unfold db_voters. rewrite list_elem_of_In, in_concat. split.
  - intros (vs & Hvs & Hv). apply list_elem_of_In, list_elem_of_fmap in Hvs as (p & -> & Hp).
    exists p. split; [done|]. by apply list_elem_of_In.
  - intros (p & Hp & Hv). exists (Proposals.voters p). split.
    + apply list_elem_of_In, list_elem_of_fmap. eauto.
    + by apply list_elem_of_In.
Qed.

Section Consistent.
Context (s : State) (Hs : consistent s).

Lemma live_in_db vm p : index s !! vm = Some p → p ∈ proposals (db s).
Proof. intros H. by apply (index_mirrors_db s Hs) in H as [? _]. Qed.

Lemma live_key vm p : index s !! vm = Some p → Proposals.voting_message_id p = vm.
Proof. intros H. by apply (index_mirrors_db s Hs) in H as [_ ?]. Qed.

Lemma same_id_same_row p q :
  p ∈ proposals (db s) → q ∈ proposals (db s) → Proposals.id p = Proposals.id q → p = q.
Proof. apply NoDup_fmap_eq, (ids_unique s Hs). Qed.

Lemma same_key_same_row p q :
  p ∈ proposals (db s) → q ∈ proposals (db s) →
  Proposals.voting_message_id p = Proposals.voting_message_id q → p = q.
Proof.
  intros Hp Hq Hk.
  assert (index s !! Proposals.voting_message_id q = Some p) as H1
    by by apply (index_mirrors_db s Hs).
  assert (index s !! Proposals.voting_message_id q = Some q) as H2
    by by apply (index_mirrors_db s Hs).
  congruence.
Qed.

(** A lookup that finds no voter row: the user has no vote on the proposal. *)
Lemma find_voter_None vm p user :
  index s !! vm = Some p → find_voter (db s) user vm = None →
  user ∉ Voters.user_id <$> Proposals.voters p.
Proof.
  intros Hp Hfind Hin. apply list_elem_of_fmap in Hin as (v & -> & Hv).
  pose proof (live_in_db _ _ Hp) as Hdb. pose proof (live_key _ _ Hp) as Hk.
  destruct (voters_of_parent s Hs p v Hdb Hv) as [Hvm _].
  eapply find_none in Hfind; [|apply list_elem_of_In, elem_of_db_voters; eauto].
  apply bool_decide_eq_false in Hfind. apply Hfind. split; congruence.
Qed.

(** A lookup that finds a voter row: it is a vote of that user on the
    proposal. *)
Lemma find_voter_Some vm p user v :
  index s !! vm = Some p → find_voter (db s) user vm = Some v →
  v ∈ Proposals.voters p ∧ Voters.user_id v = user.
Proof.
  intros Hp Hfind. apply find_some in Hfind as [Hin Hv].
  apply bool_decide_eq_true in Hv as [Hu Hvm].
  apply list_elem_of_In, elem_of_db_voters in Hin as (q & Hq & Hvq).
  destruct (voters_of_parent s Hs q v Hq Hvq) as [Hvm' _].
  assert (q = p) as ->; [|done].
  apply same_key_same_row; [done|by eapply live_in_db|].
  rewrite (live_key _ _ Hp). congruence.
Qed.

Lemma consistent_put_history h : consistent (put_history h s).
Proof. destruct Hs. by constructor. Qed.

Lemma consistent_drop_proposal p :
  index s !! Proposals.voting_message_id p = Some p → consistent (drop_proposal p s).
Proof.
  intros Hp. pose proof (live_in_db _ _ Hp) as Hdb.
  constructor; cbn [drop_proposal index db set_proposals proposals].
  - intros vm q. rewrite list_elem_of_filter, lookup_delete. case_decide as Hk.
    + split; [done|]. intros [[Hne Hq] Hvm]. destruct Hne.
      f_equal. apply same_key_same_row; [done..|congruence].
    + rewrite (index_mirrors_db s Hs). split; [|tauto].
      intros [Hq Hvm]. split; [|done]. split; [|done].
      intros Hid. apply Hk. rewrite <- Hvm. f_equal. by apply same_id_same_row.
  - apply sublist_fmap_filter, (ids_unique s Hs).
  - intros q v Hq. apply list_elem_of_filter in Hq as [_ Hq]. by apply (voters_of_parent s Hs).
  - intros q Hq. apply list_elem_of_filter in Hq as [_ Hq]. by apply (one_vote_per_user s Hs).
Qed.

Lemma consistent_put_proposal p vs :
  index s !! Proposals.voting_message_id p = Some p →
  (∀ v, v ∈ vs → Voters.voting_message_id v = Proposals.voting_message_id p
                 ∧ Voters.grant_proposal_id v = Some (Proposals.id p)) →
  NoDup (Voters.user_id <$> vs) →
  consistent (put_proposal (Proposals.set_voters vs p) s).
Proof.
  intros Hp Hvs Hnd. pose proof (live_in_db _ _ Hp) as Hdb.
  set (p' := Proposals.set_voters vs p).
  assert (∀ q, q ∈ (λ r, if decide (Proposals.id r = Proposals.id p') then p' else r)
                     <$> proposals (db s) ↔
               q = p' ∨ (q ∈ proposals (db s) ∧ Proposals.id q ≠ Proposals.id p)) as Hrows.
  { intros q. rewrite list_elem_of_fmap. split.
    - intros (r & -> & Hr). case_decide; [by left|by right].
    - intros [->|[Hq Hne]].
      + exists p. split; [|done]. by rewrite decide_True.
      + exists q. split; [|done]. by rewrite decide_False. }
  constructor; cbn [put_proposal index db set_proposals proposals].
  - intros vm q. rewrite Hrows, lookup_insert. case_decide as Hk.
    + split.
      * intros [= <-]. by split; [left|].
      * intros [[->|[Hq Hne]] Hvm]; [done|]. destruct Hne. f_equal.
        apply same_key_same_row; [done..|]. by rewrite Hvm, <- Hk.
    + rewrite (index_mirrors_db s Hs). split.
      * intros [Hq Hvm]. split; [|done]. right. split; [done|].
        intros Hid. apply Hk. rewrite <- Hvm.
        by rewrite (same_id_same_row q p).
      * intros [[->|[Hq Hne]] Hvm]; [done|]. done.
  - rewrite <- list_fmap_compose. erewrite list_fmap_ext; [apply (ids_unique s Hs)|].
    intros i r _. simpl. by case_decide.
  - intros q v Hq Hv. apply Hrows in Hq as [->|[Hq _]].
    + by apply Hvs.
    + by apply (voters_of_parent s Hs).
  - intros q Hq. apply Hrows in Hq as [->|[Hq _]]; [done|].
    by apply (one_vote_per_user s Hs).
Qed.

End Consistent.

Lemma archive_step_consistent p r s s' :
  consistent s → index s !! Proposals.voting_message_id p = Some p →
  archive_step p r s s' → consistent s'.
Proof.
  intros Hs Hp [h _ _|h _ _].
  - by apply consistent_put_history.
  - apply consistent_drop_proposal; [by apply consistent_put_history|done].
Qed.

Lemma voted_consistent s vm p user :
  consistent s → index s !! vm = Some p → find_voter (db s) user vm = None →
  consistent (put_proposal (voted (db s) p user) s).
Proof.
  intros Hs Hp Hfind. pose proof (live_key s Hs _ _ Hp) as <-.
  apply consistent_put_proposal; [done..| |].
  - intros v [Hv| ->%list_elem_of_singleton]%elem_of_app; [|done].
    eapply (voters_of_parent s Hs); [by eapply live_in_db|done].
  - rewrite fmap_app. apply NoDup_app. split_and!.
    + eapply (one_vote_per_user s Hs), live_in_db; eauto.
    + intros u Hu ->%list_elem_of_singleton. by eapply find_voter_None.
    + apply NoDup_singleton.
Qed.

Lemma unvoted_consistent s vm p v :
  consistent s → index s !! vm = Some p →
  consistent (put_proposal (unvoted p v) s).
Proof.
  intros Hs Hp. pose proof (live_key s Hs _ _ Hp) as <-.
  apply consistent_put_proposal; [done..| |].
  - intros x [_ Hx]%list_elem_of_filter.
    eapply (voters_of_parent s Hs); [by eapply live_in_db|done].
  - apply sublist_fmap_filter. eapply (one_vote_per_user s Hs), live_in_db; eauto.
Qed.

Lemma add_effect_consistent payload s s' :
  consistent s → add_effect payload s s' → consistent s'.
Proof.
  intros Hs [|p Hrec Hp Hfind|p r s'' Hrec Hp Hfind Hv Ha]; [done|..].
  - by eapply voted_consistent.
  - eapply archive_step_consistent; [by eapply voted_consistent| |exact Ha].
    apply lookup_put_proposal.
Qed.

Lemma remove_effect_consistent payload s s' :
  consistent s → remove_effect payload s s' → consistent s'.
Proof. intros Hs [|p v Hp Hfind]; [done|]. by eapply unvoted_consistent. Qed.

Lemma grant_effect_consistent vm s s' :
  consistent s → grant_effect vm s s' → consistent s'.
Proof.
  intros Hs [|p s'' Hp Ha]; [done|].
  eapply archive_step_consistent; [done| |exact Ha].
  by rewrite (live_key s Hs _ _ Hp).
Qed.

(** The handlers, as relations on states. *)
Lemma add_run env payload w :
  outcome (exec env (on_raw_reaction_add env payload) w) = Ok tt
  ∧ add_effect payload (state w) (state (final (exec env (on_raw_reaction_add env payload) w))).
Proof. apply (add_spec env payload w). Qed.

Lemma remove_run env payload w :
  outcome (exec env (on_raw_reaction_remove env payload) w) = Ok tt
  ∧ remove_effect payload (state w) (state (final (exec env (on_raw_reaction_remove env payload)
                                                        w))).
Proof. apply (remove_spec env payload w). Qed.

Lemma grant_run env vm w :
  outcome (exec env (grant env vm) w) = Ok tt
  ∧ grant_effect vm (state w) (state (final (exec env (grant env vm) w))).
Proof. apply (grant_spec env vm w). Qed.

(** ** Runs in which every call goes through *)

Lemma wp_final {A} env (m : M A) (P : World → Prop) w :
  wp env m (λ w' _, P w') w → P (final (exec env m w)).
Proof. done. Qed.

Lemma wp_is_valid_known env payload (Q : World → Outcome (option bool) → Prop) w v :
  outcome (exec env (is_valid_voting_reaction env payload) w) = Ok v →
  (∀ w', state w' = state w →
         trace w' = trace (final (exec env (is_valid_voting_reaction env payload)
                                       w)) → Q w' (Ok v)) →
  wp env (is_valid_voting_reaction env payload) Q w.
Proof.
  intros Hv H. unfold wp. rewrite Hv. apply H; [|done].
  apply (is_valid_spec env payload w).
Qed.

(** A branch the hypotheses rule out. *)
Ltac prune :=
  exfalso;
  first
    [ match goal with
      | H : ∀ a, io_ok _ a = true, H' : io_ok _ ?a = false |- _ =>
          rewrite H in H'; discriminate
      | H : ∀ a, db_ok _ a = true, H' : db_ok _ ?a = false |- _ =>
          rewrite H in H'; discriminate
      end
    | same_state; unfold has_history in *;
      cbn [negb truthy voted unvoted Proposals.set_voters Proposals.author Proposals.threshold
           Proposals.voters Proposals.closed_at Proposals.id Proposals.voting_message_id
           put_proposal put_history set_db set_history set_proposals history db index] in *;
      simplify_eq;
      solve [ congruence | contradiction ] ].

(** Running [on_raw_reaction_add] when every call goes through. *)
(** One step of a run in which every call and every write goes through. *)
Ltac cstep Hio Hdb :=
  cbv beta iota zeta;
  lazymatch goal with
  | |- wp _ (perform _) _ _ => apply wp_perform_ok; [apply Hio|]
  | |- wp _ (db_write _ _) _ _ => apply wp_db_write_ok; [apply Hdb|]
  | |- wp _ (report_error _ _ _) _ _ => apply wp_report_error; intros ? ?
  | |- wp _ (attr _) _ _ => wp_step; try prune
  | |- wp _ (name _) _ _ => wp_step; try prune
  | |- wp _ (if _ then _ else _) _ _ => wp_step; try prune
  | |- wp _ (match _ with _ => _ end) _ _ => wp_step; try prune
  | |- _ => wp_step
  end.

Ltac run_add Hvalid Hio Hdb :=
  unfold on_raw_reaction_add, cancel_proposal, add_proposals_history_item, remove_proposal,
    add_voter, get_proposal, get_voter, is_recovery;
  wp_step; wp_step; eapply wp_is_valid_known; [exact Hvalid|]; intros ? ? ?;
  repeat cstep Hio Hdb;
  same_state; fold_voted; relookup.

Lemma add_run_cancel env w payload p reacting r :
  cooperative env →
  outcome (exec env (is_valid_voting_reaction env payload) w) = Ok (Some true) →
  recovery (db (state w)) = false →
  index (state w) !! Payload.message_id payload = Some p →
  find_voter (db (state w)) (Payload.user_id payload) (Payload.message_id payload) = None →
  Payload.member payload = Some reacting →
  is_Some (get_message env (Payload.channel_id payload) (Payload.message_id payload)) →
  ¬ has_history (db (state w)) (Proposals.id p) →
  let p' := voted (db (state w)) p (Payload.user_id payload) in
  verdict p' (Some reacting) = Some r →
  ∃ h, is_history_of p' r h ∧
       state (final (exec env (on_raw_reaction_add env payload) w))
       = drop_proposal p' (put_history h (put_proposal p' (state w))).
Proof.
  intros [Hio Hdb] Hvalid Hrec Hp Hfind Hm [vmsg Hvmsg] Hnew p' Hr.
  pattern (final (exec env (on_raw_reaction_add env payload) w)). apply wp_final.
  run_add Hvalid Hio Hdb.
  all: fold p'; unfold verdict in Hr; repeat case_decide; simplify_eq.
  all: eexists; (split; [|reflexivity]); split; reflexivity.
Qed.

Lemma add_run_below env w payload p reacting vmsg :
  cooperative env →
  outcome (exec env (is_valid_voting_reaction env payload) w) = Ok (Some true) →
  recovery (db (state w)) = false →
  index (state w) !! Payload.message_id payload = Some p →
  find_voter (db (state w)) (Payload.user_id payload) (Payload.message_id payload) = None →
  Payload.member payload = Some reacting →
  get_message env (Payload.channel_id payload) (Payload.message_id payload) = Some vmsg →
  let p' := voted (db (state w)) p (Payload.user_id payload) in
  verdict p' (Some reacting) = None →
  let w' := final (exec env (on_raw_reaction_add env payload) w) in
  state w' = put_proposal p' (state w)
  ∧ trace w' =
      trace (final (exec env (is_valid_voting_reaction env payload) w))
      ++ Logged INFO (added_vote (Payload.user_id payload)
                        (S (length (Proposals.voters p)))
                        (Proposals.voting_message_id p))
         :: after_counted_vote env payload p vmsg.
Proof.
  intros [Hio Hdb] Hvalid Hrec Hp Hfind Hm Hvmsg p' Hr w'. subst w'.
  pattern (final (exec env (on_raw_reaction_add env payload) w)). apply wp_final.
  unfold on_raw_reaction_add, cancel_proposal, add_proposals_history_item, remove_proposal,
    add_voter, get_proposal, get_voter, is_recovery, report_error.
  wp_step. wp_step. eapply wp_is_valid_known; [exact Hvalid|]. intros ? ? ?.
  repeat cstep Hio Hdb.
  all: same_state; fold_voted; relookup.
  all: fold p'; unfold verdict in Hr; repeat case_decide; simplify_eq.
  all: subst p'; unfold after_counted_vote;
    cbn [voted Proposals.set_voters Proposals.closed_at Proposals.voters Proposals.author
         Proposals.voting_message_id] in *; simplify_eq.
  all: match goal with H : Proposals.closed_at _ = _ |- _ => rewrite H end.
  all: split; [done|].
  all: by rewrite <- ?app_assoc, ?length_app, ?Nat.add_1_r.
Qed.

(** ** Events appended by a run *)

(** Solves [∃ evs, trace w' = trace w ++ evs ∧ _] up to the second part. *)
Ltac journal :=
  lazymatch goal with
  | |- ∃ evs, ?t = ?t ++ evs ∧ _ => exists []; split; [by rewrite app_nil_r|]
  | |- ∃ evs, _ = _ ++ evs ∧ _ =>
      eexists; split; [rewrite <- ?app_assoc; reflexivity|]
  end.

(** The validity check leaves the state alone and appends only its calls
    to the member; when it returns, they all went through. *)
Lemma is_valid_journal env payload w :
  wp env (is_valid_voting_reaction env payload)
     (λ w' o, state w' = state w
              ∧ ∃ evs, trace w' = trace w ++ evs
                       ∧ Forall (λ e, is_onboarding e) evs
                       ∧ (is_ok o → Forall (λ e, is_did e) evs)) w.
Proof.
  unfold is_valid_voting_reaction, get_proposal_initiated_by, is_relevant_proposal.
  wp_steps.
  all: tidy; (split; [reflexivity|]); journal.
  all: split; [|intros Hok; try done]; repeat constructor.
Qed.

Lemma wp_is_valid_journal env payload (Q : World → Outcome (option bool) → Prop) w :
  (∀ w' o evs,
     state w' = state w → trace w' = trace w ++ evs →
     Forall (λ e, is_onboarding e) evs →
     (is_ok o → Forall (λ e, is_did e) evs) →
     (o = Ok (Some true) → is_Some (index (state w) !! Payload.message_id payload)) →
     Q w' o) →
  wp env (is_valid_voting_reaction env payload) Q w.
Proof.
  intros H. unfold wp.
  destruct (is_valid_journal env payload w) as (Hs & evs & Ht & Hon & Hdid).
  destruct (is_valid_spec env payload w) as [_ Hv].
  eapply H; eauto. intros Ho. by destruct (Hv Ho).
Qed.

(** The error report leaves the state alone and ends with a CRITICAL
    record. *)
Lemma wp_report_error_journal env payload doing (Q : World → Outcome unit → Prop) w :
  (∀ w' evs, state w' = state w → trace w' = trace w ++ evs →
             (∀ b, pending b evs = false) → Forall (λ e, is_report e) evs →
             Q w' (Ok tt)) →
  wp env (report_error env payload doing) Q w.
Proof.
  intros H. unfold report_error. wp_steps.
  all: tidy; eapply H;
    [reflexivity|cbn [trace emit]; rewrite <- ?app_assoc; reflexivity|done|].
  all: repeat constructor.
Qed.

(** A step that leaves the state alone is passed over with what is known
    of the events it appends. *)
Lemma wp_bind_block {A B} env (E : list Event → Outcome B → Prop)
    (m : M B) (k : B → M A) (Q : World → Outcome A → Prop) w :
  wp env m (λ w' o, state w' = state w ∧ ∃ evs, trace w' = trace w ++ evs ∧ E evs o) w →
  (∀ w' o evs, state w' = state w → trace w' = trace w ++ evs → E evs o →
     match o with Ok b => wp env (k b) Q w' | Err e => Q w' (Err e) end) →
  wp env (m ≫= k) Q w.
Proof.
  intros Hm Hk. apply wp_bind. eapply wp_mono; [exact Hm|].
  intros w' o (Hs & evs & Ht & HE). by eapply Hk.
Qed.

Ltac jstep :=
  cbv beta iota zeta;
  lazymatch goal with
  | |- wp _ (is_valid_voting_reaction _ _) _ _ =>
      apply wp_is_valid_journal; intros ? ? ? ? ? ? ? ?
  | |- wp _ (report_error _ _ _) _ _ =>
      apply wp_report_error_journal; intros ? ? ? ? ? ?
  | |- _ => wp_step
  end.

(** Passing over a block [match ... end ;; _] of the handler. *)
Ltac block E solver :=
  lazymatch goal with
  | |- wp _ (mbind _ ?m) _ _ =>
      lazymatch m with
      | match _ with _ => _ end =>
          apply (wp_bind_block _ E);
          [ solve [repeat wp_step; tidy; (split; [reflexivity|]); journal; solver]
          | intros ? ? ? ? ? ? ]
      end
  end.

Ltac calm_block :=
  block (λ (evs : list Event) (o : Outcome unit), is_ok o → Forall (λ e, is_quiet e) evs)
        ltac:(intros Hok; try done; repeat constructor).

(** * The claims *)

Lemma handle_run env c w :
  outcome (exec env (handle env c) w) = Ok tt
  ∧ effect c (state w) (state (final (exec env (handle env c) w))).
Proof. destruct c; [apply add_run|apply remove_run|apply grant_run]. Qed.

(** C5. Once a proposal is closed -- archived and removed from the
    dictionary -- a vote cast or withdrawn on its voting message, or its
    timer elapsing, changes neither the dictionary nor the database.  The
    handler returns normally: the reaction is not accepted as a vote, and
    the elapsed timer is logged as a proposal that was not found. *)
Theorem C5_closed_proposal_inert env c w :
  index (state w) !! key c = None →
  let w' := final (exec env (handle env c) w) in
  state w' = state w
  ∧ outcome (exec env (handle env c) w) = Ok tt
  ∧ (∀ payload, c = vote_add payload ∨ c = vote_remove payload →
       outcome (exec env (is_valid_voting_reaction env payload) w) ≠ Ok (Some true))
  ∧ (∀ vm, c = timer_elapsed vm →
       trace w' = trace w ++ [Logged ERROR (proposal_not_found vm)]).
Proof.
  intros Hgone w'. subst w'. destruct (handle_run env c w) as [Hok Heff].
  split_and!; [|done| |].
  - destruct c; simpl in *; inversion Heff; congruence.
  - intros payload Hc Hvalid.
    destruct (is_valid_spec env payload w) as [_ Hinv].
    destruct (Hinv Hvalid) as ([p Hp] & _).
    destruct Hc as [-> | ->]; cbn [key] in Hgone; congruence.
  - intros vm ->. cbn [key] in Hgone. cbn [handle].
    pattern (final (exec env (grant env vm) w)). apply wp_final.
    unfold grant, get_proposal.
    repeat (wp_step; try (exfalso; tidy; congruence)). reflexivity.
Qed.

Lemma C5_witness :
  let w' := final (exec example_env (handle example_env (vote_add (example_vote 5)))
                        closed_world) in
  state w' = state closed_world
  ∧ outcome (exec example_env (handle example_env (vote_add (example_vote 5))) closed_world) = Ok tt
  ∧ (∀ payload,
       vote_add (example_vote 5) = vote_add payload
       ∨ vote_add (example_vote 5) = vote_remove payload →
       outcome (exec example_env (is_valid_voting_reaction example_env payload) closed_world)
       ≠ Ok (Some true))
  ∧ (∀ vm, vote_add (example_vote 5) = timer_elapsed vm →
       trace w' = trace closed_world ++ [Logged ERROR (proposal_not_found vm)]).
Proof.
  apply (C5_closed_proposal_inert example_env (vote_add (example_vote 5)) closed_world).
  vm_compute. reflexivity.
Defined.

(** The timer of the closed proposal elapses: nothing but the log entry. *)
Example timer_after_close :
  let w' := final (exec example_env (grant example_env 200) closed_world) in
  state w' = state closed_world
  ∧ trace w' = trace closed_world ++ [Logged ERROR (proposal_not_found 200)].
Proof. by vm_compute. Qed.

(** What closing [p'] by [drop_proposal] after [put_history] amounts to. *)
Lemma archived_closed_with s p p' r h :
  Proposals.id p' = Proposals.id p →
  Proposals.voting_message_id p' = Proposals.voting_message_id p →
  is_history_of p' r h →
  closed_with s (drop_proposal p' (put_history h (put_proposal p' s))) p r.
Proof.
  intros Hid Hvm [Hbase Hres]. split_and!.
  - cbn [drop_proposal index]. rewrite Hvm. apply lookup_delete_eq.
  - cbn [drop_proposal db set_proposals proposals]. intros q [Hq _]%list_elem_of_filter.
    by rewrite <- Hid.
  - exists h. split_and!; [done| |done].
    unfold ProposalHistory.id. by rewrite Hbase.
Qed.

Lemma voted_Active s p user :
  Active s p → Active (put_proposal (voted (db s) p user) s) (voted (db s) p user).
Proof.
  intros (Hi & Hdb & Hh). split_and!.
  - apply lookup_put_proposal.
  - cbn [put_proposal db set_proposals proposals]. apply list_elem_of_fmap.
    exists p. split; [|done]. by rewrite decide_True.
  - done.
Qed.

Lemma example_env_cooperative : cooperative example_env.
Proof. by split. Qed.

Lemma world_with_Active p : Active (state (world_with p)) p.
Proof.
  split_and!.
  - apply lookup_singleton_eq.
  - apply list_elem_of_singleton. reflexivity.
  - intros H. by apply Exists_nil in H.
Qed.

Lemma one_short_Active : Active (state one_short_world) one_short_proposal.
Proof.
  split_and!.
  - by vm_compute.
  - assert (proposals (db (state one_short_world)) = [one_short_proposal]) as ->
      by (by vm_compute).
    by apply list_elem_of_singleton.
  - intros H. apply Exists_exists in H as (h & Hin & _).
    assert (history (db (state one_short_world)) = []) as Hnil by (by vm_compute).
    rewrite Hnil in Hin. by apply elem_of_nil in Hin.
Qed.

(** C1 as stated fails.  User 5 casts the first vote on a proposal with
    threshold 3 that is built as [schemas.py] declares it, without a
    [closed_at].  The vote is recorded and the count is logged, but the
    voter is told nothing: reading [proposal.closed_at] raises, and the
    handler posts its error reply in the voting channel instead. *)
Lemma C1_voter_not_informed :
  let w := world_with proposal_as_declared in
  let w' := final (exec example_env (on_raw_reaction_add example_env (example_vote 5)) w) in
  Proposals.closed_at proposal_as_declared = None
  ∧ (Voters.user_id <$> Proposals.voters (default proposal_as_declared (index (state w') !! 200)))
    = [5]
  ∧ history (db (state w')) = []
  ∧ trace w'
    = [Logged INFO (added_vote 5 1 200);
       Did (reply 10 200 (fmt (UNEXPECTED_ERROR "handling reaction adding")
                            [("cc", a_str "<@1>")]));
       Logged CRITICAL (unexpected_error "handling reaction adding")].
Proof. by vm_compute. Qed.

(** C1 (amended). A vote on an active proposal by someone other than its
    author, once recorded, closes the proposal as cancelled by threshold
    when the voter count has reached the threshold: the history gets the
    row with that result and the proposal is removed.  Below the threshold
    the proposal stays active with the vote recorded and the count is
    logged; the voter is sent the remaining time only if the proposal
    object has a [closed_at], which [Proposals] does not declare: without
    it nothing is sent to the voter and the handler posts its error reply.
    (The vote is recorded when the reaction is valid, recovery is off and
    the voter has no row yet; every Discord call and database write is
    taken to go through.) *)
Theorem C1_threshold_rule env w payload p reacting vmsg :
  cooperative env →
  outcome (exec env (is_valid_voting_reaction env payload) w) = Ok (Some true) →
  recovery (db (state w)) = false →
  Active (state w) p →
  Payload.message_id payload = Proposals.voting_message_id p →
  find_voter (db (state w)) (Payload.user_id payload) (Payload.message_id payload) = None →
  Payload.member payload = Some reacting →
  Proposals.author p ≠ member_mention reacting →
  get_message env (Payload.channel_id payload) (Payload.message_id payload) = Some vmsg →
  let w1 := final (exec env (is_valid_voting_reaction env payload) w) in
  let w' := final (exec env (on_raw_reaction_add env payload) w) in
  let count := S (length (Proposals.voters p)) in
  (Z.of_nat count >= Proposals.threshold p →
     closed_with (state w) (state w') p CANCELLED_BY_REACHING_THRESHOLD)
  ∧ (Z.of_nat count < Proposals.threshold p →
     (∃ p', Active (state w') p'
            ∧ Proposals.voting_message_id p' = Proposals.voting_message_id p
            ∧ length (Proposals.voters p') = count)
     ∧ history (db (state w')) = history (db (state w))
     ∧ trace w' = trace w1
                  ++ Logged INFO (added_vote (Payload.user_id payload) count
                                    (Proposals.voting_message_id p))
                     :: after_counted_vote env payload p vmsg).
Proof.
  intros Hco Hvalid Hrec HA Hmid Hfind Hm Hauthor Hvmsg w1 w' count.
  pose proof HA as (Hi & Hdb & Hh). rewrite <- Hmid in Hi.
  set (p' := voted (db (state w)) p (Payload.user_id payload)).
  assert (length (Proposals.voters p') = count) as Hlen.
  { unfold p', voted, count. cbn [Proposals.set_voters Proposals.voters].
    by rewrite length_app, Nat.add_1_r. }
  split.
  - intros Hge.
    destruct (add_run_cancel env w payload p reacting CANCELLED_BY_REACHING_THRESHOLD)
      as (h & Hh' & Hs); try done.
    { unfold verdict. fold p'. rewrite decide_False by done.
      rewrite decide_True; [done|]. rewrite Hlen. exact Hge. }
    subst w'. rewrite Hs. by apply archived_closed_with.
  - intros Hlt.
    destruct (add_run_below env w payload p reacting vmsg) as [Hs Ht]; try done.
    { unfold verdict. fold p'. rewrite decide_False by done.
      rewrite decide_False; [done|]. rewrite Hlen. unfold p', voted. simpl. lia. }
    subst w' w1. rewrite Hs, Ht. split_and!; [|done|done].
    exists p'. split_and!; [by apply voted_Active|done|done].
Qed.

Lemma C1_witness :
  let at_threshold :=
    final (exec example_env (on_raw_reaction_add example_env (example_vote 6))
             one_short_world) in
  let below :=
    final (exec example_env (on_raw_reaction_add example_env (example_vote 5))
             example_world) in
  closed_with (state one_short_world) (state at_threshold) one_short_proposal
    CANCELLED_BY_REACHING_THRESHOLD
  ∧ (∃ p', Active (state below) p'
           ∧ Proposals.voting_message_id p' = 200
           ∧ length (Proposals.voters p') = 1%nat)
  ∧ history (db (state below)) = []
  ∧ trace below
    = [Logged INFO (added_vote 5 1 200);
       Did (send_dm 1 5 (fmt HELP_MESSAGE_VOTED_AGAINST
                           [("author", a_str "<@7>"); ("countdown", a_int 3500);
                            ("cancel_emoji", a_str "x"); ("voting_link", a_str "url")]))].
Proof.
  split.
  - apply (C1_threshold_rule example_env one_short_world (example_vote 6) one_short_proposal
             (example_member 6) {| msg_channel := 10; msg_id := 200; jump_url := "url" |}).
    + exact example_env_cooperative.
    + by vm_compute.
    + reflexivity.
    + exact one_short_Active.
    + reflexivity.
    + by vm_compute.
    + reflexivity.
    + by vm_compute.
    + reflexivity.
    + by vm_compute.
  - apply (C1_threshold_rule example_env example_world (example_vote 5) example_proposal
             (example_member 5) {| msg_channel := 10; msg_id := 200; jump_url := "url" |}).
    + exact example_env_cooperative.
    + by vm_compute.
    + reflexivity.
    + apply world_with_Active.
    + reflexivity.
    + by vm_compute.
    + reflexivity.
    + by vm_compute.
    + reflexivity.
    + by vm_compute.
Defined.

(** The scenario of the specification: threshold 3, three distinct voters
    other than the author; the third vote cancels by threshold. *)
Example three_votes_cancel :
  let w2 := run [(example_env, vote_add (example_vote 5));
                 (example_env, vote_add (example_vote 6))] example_world in
  let w3 := final (exec example_env (on_raw_reaction_add example_env (example_vote 8)) w2) in
  is_Some (index (state w2) !! 200)
  ∧ index (state w3) !! 200 = None
  ∧ ProposalHistory.result <$> history (db (state w3)) = [Some CANCELLED_BY_REACHING_THRESHOLD].
Proof. vm_compute. eauto. Qed.

(** C2. A vote on an active proposal by its author closes the proposal as
    cancelled by the proposer, whatever the voter count and the threshold
    are -- also when this very vote makes the count reach the threshold;
    the result is never the cancellation by threshold.  (As for C1, the
    vote is one that gets recorded, and every call and write goes
    through.) *)
Theorem C2_author_rule env w payload p reacting :
  cooperative env →
  outcome (exec env (is_valid_voting_reaction env payload) w) = Ok (Some true) →
  recovery (db (state w)) = false →
  Active (state w) p →
  Payload.message_id payload = Proposals.voting_message_id p →
  find_voter (db (state w)) (Payload.user_id payload) (Payload.message_id payload) = None →
  Payload.member payload = Some reacting →
  Proposals.author p = member_mention reacting →
  is_Some (get_message env (Payload.channel_id payload) (Payload.message_id payload)) →
  let w' := final (exec env (on_raw_reaction_add env payload) w) in
  closed_with (state w) (state w') p CANCELLED_BY_PROPOSER
  ∧ ¬ closed_with (state w) (state w') p CANCELLED_BY_REACHING_THRESHOLD.
Proof.
  intros Hco Hvalid Hrec HA Hmid Hfind Hm Hauthor Hvmsg w'.
  pose proof HA as (Hi & Hdb & Hh). rewrite <- Hmid in Hi.
  destruct (add_run_cancel env w payload p reacting CANCELLED_BY_PROPOSER)
    as (h & Hh' & Hs); try done.
  { unfold verdict. by rewrite decide_True. }
  assert (closed_with (state w) (state w') p CANCELLED_BY_PROPOSER) as Hclosed.
  { subst w'. rewrite Hs. by apply archived_closed_with. }
  split; [done|].
  destruct Hclosed as (_ & _ & h1 & Hh1 & _ & Hr1).
  intros (_ & _ & h2 & Hh2 & _ & Hr2).
  rewrite Hh1 in Hh2. apply app_inj_tail in Hh2 as [_ ->]. congruence.
Qed.

Lemma C2_witness :
  let w := world_with (proposal_with_threshold 1) in
  let w' := final (exec example_env (on_raw_reaction_add example_env (example_vote 7)) w) in
  closed_with (state w) (state w') (proposal_with_threshold 1) CANCELLED_BY_PROPOSER
  ∧ ¬ closed_with (state w) (state w') (proposal_with_threshold 1)
        CANCELLED_BY_REACHING_THRESHOLD.
Proof.
  apply (C2_author_rule example_env (world_with (proposal_with_threshold 1))
           (example_vote 7) (proposal_with_threshold 1) (example_member 7)).
  - exact example_env_cooperative.
  - vm_compute. reflexivity.
  - reflexivity.
  - apply world_with_Active.
  - reflexivity.
  - vm_compute. reflexivity.
  - reflexivity.
  - vm_compute. reflexivity.
  - vm_compute. eauto.
Defined.

Lemma handle_consistent env c w :
  consistent (state w) → consistent (state (final (exec env (handle env c) w))).
Proof.
  intros Hs. destruct (handle_run env c w) as [_ Heff]. destruct c; simpl in Heff.
  - by eapply add_effect_consistent.
  - by eapply remove_effect_consistent.
  - by eapply grant_effect_consistent.
Qed.

Lemma run_consistent cs w : consistent (state w) → consistent (state (run cs w)).
Proof.
  revert w. induction cs as [|[env c] cs IH]; intros w Hs; [done|].
  simpl. by apply IH, handle_consistent.
Qed.

(** A vote by a user who has a voter row already changes nothing. *)
Lemma second_vote_noop env w payload :
  is_Some (find_voter (db (state w)) (Payload.user_id payload) (Payload.message_id payload)) →
  state (final (exec env (on_raw_reaction_add env payload) w)) = state w.
Proof.
  intros [v Hv]. destruct (add_run env payload w) as [_ Heff].
  inversion Heff; congruence.
Qed.

(** A vote that is recorded stays recorded: the handler ends with the vote
    written, or with the proposal closed by it. *)
Lemma vote_kept_run env w payload p :
  outcome (exec env (is_valid_voting_reaction env payload) w) = Ok (Some true) →
  recovery (db (state w)) = false →
  index (state w) !! Payload.message_id payload = Some p →
  find_voter (db (state w)) (Payload.user_id payload) (Payload.message_id payload) = None →
  db_ok env (insert_voter (Proposals.id p)) = true →
  let p' := voted (db (state w)) p (Payload.user_id payload) in
  let s' := state (final (exec env (on_raw_reaction_add env payload) w)) in
  s' = put_proposal p' (state w)
  ∨ ∃ r, verdict p' (Payload.member payload) = Some r
         ∧ archive_step p' r (put_proposal p' (state w)) s'.
Proof.
  intros Hvalid Hrec Hp Hfind Hdb p' s'. subst s'.
  pattern (final (exec env (on_raw_reaction_add env payload) w)). apply wp_final.
  unfold on_raw_reaction_add, cancel_proposal, add_proposals_history_item, remove_proposal,
    add_voter, get_proposal, get_voter, is_recovery.
  wp_step. wp_step. eapply wp_is_valid_known; [exact Hvalid|]. intros ? ? ?.
  repeat hstep; same_state; fold_voted; relookup.
  all: try congruence.
  all: subst p'.
  all: try (left; reflexivity).
  all: match goal with
       | |- context [history_row _ ?r _ _] =>
           right; exists r; split; [|archive_leaf]
       end.
  all: match goal with H : Payload.member _ = Some _ |- _ => unfold verdict; rewrite H end.
  all: repeat case_decide; done.
Qed.

Lemma users_voted d p u rest :
  (Voters.user_id <$> Proposals.voters (voted d p u)) ++ rest
  = (Voters.user_id <$> Proposals.voters p) ++ u :: rest.
Proof.
  cbn [voted Proposals.set_voters Proposals.voters]. by rewrite fmap_app, <- app_assoc.
Qed.

Lemma users_voted_again (us rest : list Z) u :
  u ∈ us → (list_to_set (us ++ u :: rest) : gset Z) = list_to_set (us ++ rest).
Proof.
  intros Hin. rewrite !list_to_set_app_L, list_to_set_cons.
  assert (u ∈ (list_to_set us : gset Z)) by by apply elem_of_list_to_set.
  apply set_eq. intros y. rewrite !elem_of_union, elem_of_singleton.
  intuition (subst; auto).
Qed.

Lemma closing_votes_later p payload payloads :
  Payload.user_id payload ∈ Voters.user_id <$> Proposals.voters p →
  closing_votes p payloads → closing_votes p (payload :: payloads).
Proof.
  intros Hin [(x & m & Hx & Hm & Ha)|Hge].
  - left. exists x, m. split_and!; [by apply elem_of_cons; right|done..].
  - right. by rewrite fmap_cons, users_voted_again.
Qed.

Lemma closing_votes_voted d p payload payloads :
  closing_votes (voted d p (Payload.user_id payload)) payloads →
  closing_votes p (payload :: payloads).
Proof.
  intros [(x & m & Hx & Hm & Ha)|Hge].
  - left. exists x, m. split_and!; [by apply elem_of_cons; right|done..].
  - right. by rewrite users_voted in Hge.
Qed.

(** Votes cast one after the other, each valid at its turn: the proposal
    is still in the dictionary with one row for every user who had one or
    cast a vote, or the last vote has closed it. *)
Lemma votes_counted env payloads : ∀ w p,
  consistent (state w) →
  index (state w) !! Proposals.voting_message_id p = Some p →
  recovery (db (state w)) = false →
  db_ok env (insert_voter (Proposals.id p)) = true →
  Forall (λ payload, Payload.message_id payload = Proposals.voting_message_id p) payloads →
  all_valid env payloads w →
  let users := (Voters.user_id <$> Proposals.voters p) ++ (Payload.user_id <$> payloads) in
  let w' := run ((λ payload, (env, vote_add payload)) <$> payloads) w in
  (∃ p', index (state w') !! Proposals.voting_message_id p = Some p'
         ∧ Proposals.id p' = Proposals.id p
         ∧ list_to_set (Voters.user_id <$> Proposals.voters p') = (list_to_set users : gset Z))
  ∨ (index (state w') !! Proposals.voting_message_id p = None
     ∧ has_history (db (state w')) (Proposals.id p)
     ∧ (∀ q, q ∈ proposals (db (state w')) → Proposals.id q ≠ Proposals.id p)
     ∧ closing_votes p payloads).
Proof.
  induction payloads as [|payload payloads IH];
    intros w p Hs Hi Hrec Hdbv Hall Hvalid users w'.
  { left. exists p. subst users w'. simpl. by rewrite app_nil_r. }
  apply Forall_cons in Hall as [Hmid Hall]. destruct Hvalid as [Hvalid Hvalids].
  subst w' users. rewrite !fmap_cons. cbn [run handle].
  set (w1 := final (exec env (on_raw_reaction_add env payload) w)) in *.
  pose proof Hi as Hi'. rewrite <- Hmid in Hi'.
  set (p1 := voted (db (state w)) p (Payload.user_id payload)).
  (* the proposal is still open after this vote *)
  assert (consistent (state w1) →
          index (state w1) !! Proposals.voting_message_id p = Some p1 →
          recovery (db (state w1)) = false →
          (∃ p', index (state (run ((λ payload, (env, vote_add payload)) <$> payloads) w1))
                   !! Proposals.voting_message_id p = Some p'
                 ∧ Proposals.id p' = Proposals.id p
                 ∧ list_to_set (Voters.user_id <$> Proposals.voters p')
                   = (list_to_set ((Voters.user_id <$> Proposals.voters p)
                                   ++ Payload.user_id payload :: (Payload.user_id <$> payloads))
                      : gset Z))
          ∨ (index (state (run ((λ payload, (env, vote_add payload)) <$> payloads) w1))
               !! Proposals.voting_message_id p = None
             ∧ has_history
                 (db (state (run ((λ payload, (env, vote_add payload)) <$> payloads) w1)))
                 (Proposals.id p)
             ∧ (∀ q, q ∈ proposals
                       (db (state (run ((λ payload, (env, vote_add payload)) <$> payloads) w1))) →
                     Proposals.id q ≠ Proposals.id p)
             ∧ closing_votes p (payload :: payloads))) as Hopen.
  { intros Hs1 Hi1 Hrec1.
    destruct (IH w1 p1 Hs1 Hi1 Hrec1 Hdbv Hall Hvalids)
      as [(p' & Hp' & Hid & Hset)|(Hnone & Hhas & Hgone & Hclose)].
    - left. exists p'. split_and!; [done..|]. rewrite Hset. unfold p1. by rewrite users_voted.
    - right. split_and!; [done..|]. by eapply closing_votes_voted. }
  destruct (find_voter (db (state w)) (Payload.user_id payload) (Payload.message_id payload))
    as [v|] eqn:Hfind.
  - (* a second vote of this user *)
    pose proof (second_vote_noop env w payload) as Hsame.
    rewrite Hfind in Hsame. specialize (Hsame (ltac:(eauto))). fold w1 in Hsame.
    destruct (find_voter_Some _ Hs _ _ _ _ Hi' Hfind) as [Hv Hu].
    assert (Payload.user_id payload ∈ Voters.user_id <$> Proposals.voters p) as Hin
      by (rewrite <- Hu; by apply list_elem_of_fmap_2).
    rewrite <- Hsame in Hs, Hi, Hrec.
    destruct (IH w1 p Hs Hi Hrec Hdbv Hall Hvalids)
      as [(p' & Hp' & Hid & Hset)|(Hnone & Hhas & Hgone & Hclose)].
    + left. exists p'. split_and!; [done..|]. by rewrite users_voted_again.
    + right. split_and!; [done..|]. by apply closing_votes_later.
  - (* a first vote *)
    pose proof (find_voter_None _ Hs _ _ _ Hi' Hfind) as Hnotin.
    pose proof (vote_kept_run env w payload p Hvalid Hrec Hi' Hfind Hdbv) as Hrun.
    cbv zeta in Hrun. fold w1 in Hrun. fold p1 in Hrun.
    destruct Hrun as [Hst|(r & Hv & Hstep)].
    + apply Hopen; rewrite Hst.
      * by apply (voted_consistent _ (Payload.message_id payload)).
      * exact (lookup_put_proposal p1 _).
      * done.
    + assert (consistent (put_proposal p1 (state w))) as Hs1
        by by apply (voted_consistent _ (Payload.message_id payload)).
      inversion Hstep as [h Hh Hnew Heq|h Hh Hnew Heq].
      * apply Hopen; rewrite <- Heq.
        -- by apply consistent_put_history.
        -- exact (lookup_put_proposal p1 _).
        -- done.
      * assert (index (state w1) !! Proposals.voting_message_id p = None) as Hnone.
        { rewrite <- Heq. apply lookup_delete_eq. }
        destruct payloads as [|payload' payloads].
        -- right. cbn [fmap list_fmap run]. split_and!.
           ++ done.
           ++ rewrite <- Heq. apply Exists_exists. exists h. split.
              ** cbn. apply elem_of_app. right. by apply list_elem_of_singleton.
              ** destruct Hh as [Hbase _]. unfold ProposalHistory.id. by rewrite Hbase.
           ++ rewrite <- Heq. cbn [drop_proposal db set_proposals proposals].
              by intros q [Hq _]%list_elem_of_filter.
           ++ unfold verdict in Hv. destruct (Payload.member payload) as [m|] eqn:Hm; [|done].
              destruct (decide (Proposals.author p1 = member_mention m)) as [Ha|_].
              { left. exists payload, m. split_and!; [by apply elem_of_cons; left|done..]. }
              destruct (decide (Z.of_nat (length (Proposals.voters p1))
                                >= Proposals.threshold p1)) as [Hge|_]; [|done].
              right. simpl. rewrite <- users_voted with (d := db (state w)). fold p1.
              rewrite app_nil_r, size_list_to_set, length_fmap; [done|].
              eapply (one_vote_per_user _ Hs1), live_in_db; [done|].
              exact (lookup_put_proposal p1 _).
        -- exfalso. destruct Hvalids as [Hvalid' _].
           apply Forall_cons in Hall as [Hmid' _].
           destruct (is_valid_spec env payload' w1) as [_ Hinv].
           destruct (Hinv Hvalid') as ([q Hq] & _).
           rewrite Hmid' in Hq. congruence.
Qed.

Lemma world_with_consistent p :
  Proposals.voters p = [] → consistent (state (world_with p)).
Proof.
  intros Hv. constructor; cbn [world_with state index db proposals].
  - intros vm q. rewrite list_elem_of_singleton. split.
    + intros [<- <-]%lookup_singleton_Some. done.
    + intros [-> <-]. apply lookup_singleton_eq.
  - apply NoDup_singleton.
  - intros q v ->%list_elem_of_singleton. rewrite Hv. by intros ?%elem_of_nil.
  - intros q ->%list_elem_of_singleton. rewrite Hv. apply NoDup_nil_2.
Qed.

(** C3 as stated fails, twice.  The rows below satisfy every constraint the
    schema declares on the voters table, and yet hold two votes of user 5
    on proposal 1: the schema does not enforce one row per user and
    proposal.  And the voter count does not end as the number of distinct
    voters when their votes close the proposal: users 5 and 6 vote on a
    proposal with threshold 2, and no voter row is left. *)
Lemma C3_uniqueness_and_count_fail :
  let rows := [Voters.mk (Some 1) 5 200 (Some 1); Voters.mk (Some 2) 5 200 (Some 1)] in
  let w' := run [(example_env, vote_add (example_vote 5));
                 (example_env, vote_add (example_vote 6))]
                (world_with (proposal_with_threshold 2)) in
  (voters_table_constraints [example_proposal] rows ∧ ¬ unique_user_proposal rows)
  ∧ (db_voters (db (state w')) = []
     ∧ ProposalHistory.result <$> history (db (state w'))
       = [Some CANCELLED_BY_REACHING_THRESHOLD]).
Proof.
  split; [split|by vm_compute].
  - split_and!.
    + simpl. apply NoDup_cons. split; [|apply NoDup_singleton].
      by intros ?%list_elem_of_singleton.
    + repeat constructor; eauto.
    + repeat apply Forall_cons_2; [| |apply Forall_nil_2];
        intros i [= <-]; by apply list_elem_of_singleton.
  - unfold unique_user_proposal. simpl. intros [Hnotin _]%NoDup_cons.
    apply Hnotin. by apply list_elem_of_singleton.
Qed.

(** C3 (amended). Votes cast on an active proposal one after the other,
    each a valid voting reaction when its turn comes, with recovery off and
    the store taking the voter rows, are counted once per user, whatever
    else the outside answers: either the proposal is still open and has
    exactly one row for every user who had one or cast a vote, or the last
    vote has closed it -- the author voted, or the distinct voters reached
    the threshold -- and its rows are gone with it.  A vote by a user who
    already has a row for the proposal changes no state.  One row per user
    and proposal is part of the consistency every handler run keeps; it is
    kept by the handler's lookup before it inserts, the schema declares no
    such constraint. *)
Theorem C3_votes_counted_once env payloads w p :
  consistent (state w) →
  Active (state w) p →
  recovery (db (state w)) = false →
  db_ok env (insert_voter (Proposals.id p)) = true →
  Forall (λ payload, Payload.message_id payload = Proposals.voting_message_id p) payloads →
  all_valid env payloads w →
  let users := (Voters.user_id <$> Proposals.voters p) ++ (Payload.user_id <$> payloads) in
  let w' := run ((λ payload, (env, vote_add payload)) <$> payloads) w in
  ((∃ p', index (state w') !! Proposals.voting_message_id p = Some p'
          ∧ p' ∈ proposals (db (state w'))
          ∧ Proposals.id p' = Proposals.id p
          ∧ NoDup (Voters.user_id <$> Proposals.voters p')
          ∧ list_to_set (Voters.user_id <$> Proposals.voters p') = (list_to_set users : gset Z)
          ∧ length (Proposals.voters p') = size (list_to_set users : gset Z))
   ∨ (index (state w') !! Proposals.voting_message_id p = None
      ∧ has_history (db (state w')) (Proposals.id p)
      ∧ (∀ v, v ∈ db_voters (db (state w')) →
              Voters.grant_proposal_id v ≠ Some (Proposals.id p))
      ∧ closing_votes p payloads))
  ∧ (∀ env' payload w0,
       is_Some (find_voter (db (state w0)) (Payload.user_id payload)
                  (Payload.message_id payload)) →
       state (final (exec env' (on_raw_reaction_add env' payload) w0)) = state w0)
  ∧ (∀ env' c w0,
       consistent (state w0) → consistent (state (final (exec env' (handle env' c) w0)))).
Proof.
  intros Hs (Hi & _ & _) Hrec Hdbv Hall Hvalid users w'. split_and!.
  - assert (consistent (state w')) as Hs' by by apply run_consistent.
    pose proof (votes_counted env payloads w p Hs Hi Hrec Hdbv Hall Hvalid) as Hrun.
    cbv zeta in Hrun. fold users in Hrun. fold w' in Hrun.
    destruct Hrun as [(p' & Hp' & Hid & Hset)|(Hnone & Hhas & Hgone & Hclose)].
    + left. exists p'.
      assert (p' ∈ proposals (db (state w'))) as Hin by by eapply live_in_db.
      assert (NoDup (Voters.user_id <$> Proposals.voters p')) as Hnodup
        by by apply (one_vote_per_user _ Hs').
      split_and!; [done..|].
      by rewrite <- Hset, size_list_to_set, length_fmap.
    + right. split_and!; [done..| |done].
      intros v (q & Hq & Hv)%elem_of_db_voters Hid.
      destruct (voters_of_parent _ Hs' q v Hq Hv) as [_ Hparent].
      apply (Hgone q Hq). congruence.
  - intros. by apply second_vote_noop.
  - intros. by apply handle_consistent.
Qed.

Lemma C3_witness :
  let payloads := [example_vote 5; example_vote 5; example_vote 6] in
  let w' := run ((λ payload, (example_env, vote_add payload)) <$> payloads) example_world in
  ((∃ p', index (state w') !! 200 = Some p'
          ∧ p' ∈ proposals (db (state w'))
          ∧ Proposals.id p' = 1
          ∧ NoDup (Voters.user_id <$> Proposals.voters p')
          ∧ list_to_set (Voters.user_id <$> Proposals.voters p')
            = (list_to_set ([] ++ [5; 5; 6]) : gset Z)
          ∧ length (Proposals.voters p') = size (list_to_set ([] ++ [5; 5; 6]) : gset Z))
   ∨ (index (state w') !! 200 = None
      ∧ has_history (db (state w')) 1
      ∧ (∀ v, v ∈ db_voters (db (state w')) → Voters.grant_proposal_id v ≠ Some 1)
      ∧ closing_votes example_proposal payloads))
  ∧ (∀ env' payload w0,
       is_Some (find_voter (db (state w0)) (Payload.user_id payload)
                  (Payload.message_id payload)) →
       state (final (exec env' (on_raw_reaction_add env' payload) w0)) = state w0)
  ∧ (∀ env' c w0,
       consistent (state w0) → consistent (state (final (exec env' (handle env' c) w0)))).
Proof.
  apply (C3_votes_counted_once example_env
           [example_vote 5; example_vote 5; example_vote 6] example_world example_proposal).
  - by apply world_with_consistent.
  - apply world_with_Active.
  - reflexivity.
  - reflexivity.
  - repeat constructor.
  - vm_compute. done.
Defined.

(** The three votes of the witness leave two rows, of users 5 and 6. *)
Example votes_counted_example :
  let w' := run [(example_env, vote_add (example_vote 5));
                 (example_env, vote_add (example_vote 5));
                 (example_env, vote_add (example_vote 6))] example_world in
  Voters.user_id <$> db_voters (db (state w')) = [5; 6].
Proof. by vm_compute. Qed.

(** ** Closing a proposal: the history row first, the removal second *)

Section Fate.
Context (s : State) (Hs : consistent s).

Lemma live_in_refl p : p ∈ proposals (db s) → live_in s p.
Proof. intros Hp. exists p. split_and!; [done..|]. by apply (index_mirrors_db s Hs). Qed.

Lemma put_proposal_other p0 vs q :
  index s !! Proposals.voting_message_id p0 = Some p0 →
  q ∈ proposals (db s) → Proposals.id q ≠ Proposals.id p0 →
  q ∈ proposals (db (put_proposal (Proposals.set_voters vs p0) s))
  ∧ index (put_proposal (Proposals.set_voters vs p0) s) !! Proposals.voting_message_id q
    = Some q.
Proof.
  intros Hp0 Hq Hne. cbn [put_proposal db index set_proposals proposals]. split.
  - apply list_elem_of_fmap. exists q. split; [|done]. by rewrite decide_False.
  - rewrite lookup_insert_ne; [by apply (index_mirrors_db s Hs)|].
    cbn [Proposals.set_voters Proposals.voting_message_id]. intros Hk. apply Hne.
    f_equal. symmetry. apply (same_key_same_row s Hs); [by eapply live_in_db|done..].
Qed.

Lemma put_proposal_live p0 vs q :
  index s !! Proposals.voting_message_id p0 = Some p0 →
  q ∈ proposals (db s) →
  live_in (put_proposal (Proposals.set_voters vs p0) s) q.
Proof.
  intros Hp0 Hq. destruct (decide (Proposals.id q = Proposals.id p0)) as [Hid|Hne].
  - assert (q = p0) as -> by (apply (same_id_same_row s Hs); [done|by eapply live_in_db|done]).
    exists (Proposals.set_voters vs p0). split_and!; [|done|apply lookup_insert_eq].
    cbn [put_proposal db set_proposals proposals]. apply list_elem_of_fmap.
    exists p0. split; [|done]. by rewrite decide_True.
  - destruct (put_proposal_other p0 vs q) as [? ?]; [done..|]. by exists q.
Qed.

(** What an archive step does to the proposals. *)
Lemma archive_step_fate p1 r s' :
  index s !! Proposals.voting_message_id p1 = Some p1 →
  archive_step p1 r s s' →
  archived_between s s' p1
  ∧ history (db s') ≠ history (db s)
  ∧ (∀ q, q ∈ proposals (db s) → Proposals.id q ≠ Proposals.id p1 →
          q ∈ proposals (db s') ∧ index s' !! Proposals.voting_message_id q = Some q).
Proof.
  intros Hp1 Hstep.
  assert (∀ h, is_history_of p1 r h →
               has_history (db (put_history h s)) (Proposals.id p1)) as Hhas.
  { intros h [Hbase _]. apply Exists_exists. exists h. split.
    - cbn. apply elem_of_app. right. by apply list_elem_of_singleton.
    - unfold ProposalHistory.id. by rewrite Hbase. }
  assert (∀ h, history (db s) ++ [h] ≠ history (db s)) as Hgrow.
  { intros h Heq. apply (f_equal length) in Heq. rewrite length_app in Heq. simpl in Heq. lia. }
  destruct Hstep as [h Hh Hnew|h Hh Hnew]; (split_and!; [split; [done|by apply Hhas]|apply Hgrow|]).
  - intros q Hq _. split; [done|]. by apply (index_mirrors_db s Hs).
  - intros q Hq Hne. cbn [drop_proposal put_history set_db db index set_proposals proposals].
    split.
    + by apply list_elem_of_filter.
    + rewrite lookup_delete_ne; [by apply (index_mirrors_db s Hs)|].
      intros Hk. apply Hne. f_equal. symmetry.
      apply (same_key_same_row s Hs); [by eapply live_in_db|done..].
Qed.

End Fate.

Lemma put_proposal_row s p0 vs :
  p0 ∈ proposals (db s) →
  Proposals.set_voters vs p0 ∈ proposals (db (put_proposal (Proposals.set_voters vs p0) s)).
Proof.
  intros Hp0. cbn [put_proposal db set_proposals proposals]. apply list_elem_of_fmap.
  exists p0. split; [|done]. by rewrite decide_True.
Qed.

(** Every proposal is, after a call, still live or archived by that call;
    it is archived only if the history has grown. *)
Lemma effect_fate c s s' :
  consistent s → effect c s s' →
  ∀ q, q ∈ proposals (db s) →
       live_in s' q ∨ (archived_between s s' q ∧ history (db s') ≠ history (db s)).
Proof.
  intros Hs Heff q Hq.
  assert (∀ p r s', index s !! Proposals.voting_message_id p = Some p →
            archive_step p r s s' →
            live_in s' q ∨ (archived_between s s' q ∧ history (db s') ≠ history (db s)))
    as Harchive.
  { intros p r s1 Hp Hstep.
    destruct (archive_step_fate s Hs p r s1 Hp Hstep) as (Harch & Hgrow & Hkept).
    destruct (decide (Proposals.id q = Proposals.id p)) as [Hid|Hne].
    - right. assert (q = p) as ->; [|done].
      apply (same_id_same_row s Hs); [done|by eapply live_in_db|done].
    - left. destruct (Hkept q Hq Hne). by exists q. }
  destruct c; simpl in Heff.
  - destruct Heff as [|p Hrec Hp Hfind|p r s1 Hrec Hp Hfind Hv Hstep].
    + left. by apply live_in_refl.
    + left. pose proof (live_key s Hs _ _ Hp) as Hk; rewrite <- Hk in Hp. by apply put_proposal_live.
    + pose proof (live_key s Hs _ _ Hp) as Hk. rewrite <- Hk in *.
      set (p' := voted (db s) p (Payload.user_id payload)) in *.
      assert (consistent (put_proposal p' s)) as Hs1 by by eapply voted_consistent.
      destruct (archive_step_fate _ Hs1 p' r s1 (lookup_put_proposal _ _) Hstep)
        as ([Hnew Hhas] & Hgrow & Hkept).
      destruct (decide (Proposals.id q = Proposals.id p)) as [Hid|Hne].
      * right. assert (q = p) as ->
          by (apply (same_id_same_row s Hs); [done|by eapply live_in_db|done]).
        split; [split; [exact Hnew|exact Hhas]|exact Hgrow].
      * left. destruct (put_proposal_other s Hs p (Proposals.voters p') q) as [Hq1 Hi1];
          [done..|].
        destruct (Hkept q Hq1 Hne). by exists q.
  - destruct Heff as [|p v Hp Hfind].
    + left. by apply live_in_refl.
    + left. pose proof (live_key s Hs _ _ Hp) as Hk; rewrite <- Hk in Hp. by apply put_proposal_live.
  - destruct Heff as [|p s1 Hp Hstep].
    + left. by apply live_in_refl.
    + pose proof (live_key s Hs _ _ Hp) as Hk; rewrite <- Hk in Hp. by eapply Harchive.
Qed.

(** A voter row is, after a call, still there, or gone with its proposal
    archived by that call, or withdrawn by that call. *)
Lemma effect_voters c s s' :
  consistent s → effect c s s' →
  ∀ v, v ∈ db_voters (db s) →
       v ∈ db_voters (db s')
       ∨ (∃ q, q ∈ proposals (db s) ∧ v ∈ Proposals.voters q ∧ archived_between s s' q)
       ∨ (∃ payload, c = vote_remove payload
                     ∧ find_voter (db s) (Payload.user_id payload)
                         (Payload.message_id payload) = Some v).
Proof.
  intros Hs Heff v [q [Hq Hv]]%elem_of_db_voters.
  assert (∀ p r s', index s !! Proposals.voting_message_id p = Some p →
            archive_step p r s s' →
            v ∈ db_voters (db s')
            ∨ (∃ q, q ∈ proposals (db s) ∧ v ∈ Proposals.voters q ∧ archived_between s s' q))
    as Harchive.
  { intros p r s1 Hp Hstep.
    destruct (archive_step_fate s Hs p r s1 Hp Hstep) as (Harch & Hgrow & Hkept).
    destruct (decide (Proposals.id q = Proposals.id p)) as [Hid|Hne].
    - right. exists q. split_and!; [done..|].
      assert (q = p) as ->; [|done].
      apply (same_id_same_row s Hs); [done|by eapply live_in_db|done].
    - left. destruct (Hkept q Hq Hne). apply elem_of_db_voters. eauto. }
  assert (∀ p vs, index s !! Proposals.voting_message_id p = Some p →
            (q = p → v ∈ vs) →
            ∃ q', q' ∈ proposals (db (put_proposal (Proposals.set_voters vs p) s))
                  ∧ v ∈ Proposals.voters q'
                  ∧ Proposals.id q' = Proposals.id q) as Hput.
  { intros p vs Hp Hvs.
    destruct (decide (Proposals.id q = Proposals.id p)) as [Hid|Hne].
    - assert (q = p) as ->
        by (apply (same_id_same_row s Hs); [done|by eapply live_in_db|done]).
      exists (Proposals.set_voters vs p). split_and!; [|by apply Hvs|done].
      apply put_proposal_row. by eapply live_in_db.
    - destruct (put_proposal_other s Hs p vs q) as [? _]; [done..|]. by exists q. }
  destruct c; simpl in Heff.
  - destruct Heff as [|p Hrec Hp Hfind|p r s1 Hrec Hp Hfind Hvd Hstep].
    + left. apply elem_of_db_voters. eauto.
    + left. pose proof (live_key s Hs _ _ Hp) as Hk; rewrite <- Hk in Hp.
      destruct (Hput p (Proposals.voters (voted (db s) p (Payload.user_id payload))) Hp)
        as (q' & ? & ? & _).
      { intros ->. apply elem_of_app. by left. }
      apply elem_of_db_voters. eauto.
    + pose proof (live_key s Hs _ _ Hp) as Hk. rewrite <- Hk in *.
      set (p' := voted (db s) p (Payload.user_id payload)) in *.
      assert (consistent (put_proposal p' s)) as Hs1 by by eapply voted_consistent.
      destruct (archive_step_fate _ Hs1 p' r s1 (lookup_put_proposal _ _) Hstep)
        as ([Hnew Hhas] & Hgrow & Hkept).
      destruct (Hput p (Proposals.voters p') Hp) as (q' & Hq' & Hvq' & Hid').
      { intros ->. apply elem_of_app. by left. }
      destruct (decide (Proposals.id q = Proposals.id p)) as [Hid|Hne].
      * right. left. exists q. split_and!; [done..|].
        assert (q = p) as ->
          by (apply (same_id_same_row s Hs); [done|by eapply live_in_db|done]).
        split; [exact Hnew|exact Hhas].
      * left. destruct (Hkept q' Hq') as [? _]; [by rewrite Hid'|].
        apply elem_of_db_voters. eauto.
  - destruct Heff as [|p v0 Hp Hfind].
    + left. apply elem_of_db_voters. eauto.
    + pose proof (live_key s Hs _ _ Hp) as Hk. rewrite <- Hk in Hp.
      destruct (decide (v = v0)) as [->|Hne].
      * right. right. by exists payload.
      * left. destruct (Hput p (Proposals.voters (unvoted p v0)) Hp) as (q' & ? & ? & _).
        { intros ->. by apply list_elem_of_filter. }
        apply elem_of_db_voters. eauto.
  - destruct Heff as [|p s1 Hp Hstep].
    + left. apply elem_of_db_voters. eauto.
    + pose proof (live_key s Hs _ _ Hp) as Hk. rewrite <- Hk in Hp.
      destruct (Harchive p ACCEPTED s1 Hp Hstep) as [?|?]; auto.
Qed.

Lemma failed_step_did evs : Forall (λ e, is_did e) evs → Forall (λ e, failed_step e = false) evs.
Proof. intros H. eapply Forall_impl; [exact H|]. by intros []. Qed.

Lemma failed_step_report evs :
  Forall (λ e, is_report e) evs → Forall (λ e, failed_step e = false) evs.
Proof.
  intros H. eapply Forall_impl; [exact H|].
  intros [a|a|l r]; try done. destruct a; try done. simpl. by destruct (template content).
Qed.

Lemma add_closing env payload w :
  (∀ p, index (state w) !! Payload.message_id payload = Some p →
        Proposals.voting_message_id p = Payload.message_id payload) →
  wp env (on_raw_reaction_add env payload)
     (λ w' _, ∃ evs, trace w' = trace w ++ evs ∧
        (history (db (state w')) = history (db (state w))
         ∨ (Forall (λ e, failed_step e = false) evs
            ∧ ∃ p, index (state w) !! Payload.message_id payload = Some p
                   ∧ db_ok env (insert_history (Proposals.id p)) = true
                   ∧ if db_ok env (delete_proposal (Proposals.id p))
                     then index (state w') !! Payload.message_id payload = None
                     else ∃ p', index (state w') !! Payload.message_id payload = Some p'
                                ∧ Proposals.id p' = Proposals.id p))) w.
Proof.
  intros Hkey.
  unfold on_raw_reaction_add, cancel_proposal, add_proposals_history_item, remove_proposal,
    add_voter, get_proposal, get_voter, is_recovery.
  wp_step. wp_step. repeat jstep.
  all: same_state; relookup; journal.
  all: try (left; reflexivity).
  all: right; split.
  all: try (repeat first [apply Forall_app_2 | apply Forall_cons_2 | apply Forall_nil_2];
            first [ reflexivity
                  | apply failed_step_did;
                    match goal with H : _ → Forall _ ?l |- Forall _ ?l => by apply H end
                  | apply failed_step_report; assumption ]).
  all: match goal with H : index _ !! _ = Some ?t |- _ => exists t; pose proof (Hkey _ H) end.
  all: cbn [Proposals.id Proposals.voting_message_id Proposals.set_voters] in *.
  all: split_and!; [assumption..|].
  all: match goal with H : db_ok _ (delete_proposal _) = _ |- _ => rewrite H end.
  all: cbn [drop_proposal put_history put_proposal set_db index state
            Proposals.id Proposals.voting_message_id Proposals.set_voters].
  all: match goal with H : Proposals.voting_message_id _ = _ |- _ => rewrite H end.
  all: first [ apply lookup_delete_eq
             | eexists; split; [apply lookup_insert_eq|reflexivity] ].
Qed.

Lemma failed_step_quiet evs :
  Forall (λ e, is_quiet e) evs → Forall (λ e, failed_step e = false) evs.
Proof. intros H. eapply Forall_impl; [exact H|]. by intros [a|a|l r]. Qed.

Lemma grant_closing env vm w :
  (∀ p, index (state w) !! vm = Some p → Proposals.voting_message_id p = vm) →
  wp env (grant env vm)
     (λ w' _, ∃ evs, trace w' = trace w ++ evs ∧
        (history (db (state w')) = history (db (state w))
         ∨ (Forall (λ e, failed_step e = false) evs
            ∧ ∃ p, index (state w) !! vm = Some p
                   ∧ db_ok env (insert_history (Proposals.id p)) = true
                   ∧ if db_ok env (delete_proposal (Proposals.id p))
                     then index (state w') !! vm = None
                     else ∃ p', index (state w') !! vm = Some p'
                                ∧ Proposals.id p' = Proposals.id p))) w.
Proof.
  intros Hkey.
  unfold grant, grant_get, voting_channel_send, add_proposals_history_item, remove_proposal,
    get_proposal.
  repeat first [calm_block | jstep].
  all: same_state.
  all: try pose proof (Hkey _ eq_refl).
  all: relookup; journal.
  all: try (left; reflexivity).
  all: right; split.
  all: try (repeat first [apply Forall_app_2 | apply Forall_cons_2 | apply Forall_nil_2];
            first [ reflexivity
                  | apply failed_step_quiet;
                    match goal with H : _ → Forall _ ?l |- Forall _ ?l => by apply H end ]).
  all: match goal with |- ∃ p, Some ?t = Some p ∧ _ => exists t end.
  all: split_and!; [done..|].
  all: match goal with H : db_ok _ (delete_proposal _) = _ |- _ => rewrite H end.
  all: cbn [drop_proposal put_history put_proposal set_db index state].
  all: first [ apply lookup_delete_eq
             | eexists; split; [eassumption|reflexivity] ].
Qed.

Lemma remove_closing env payload w :
  wp env (on_raw_reaction_remove env payload)
     (λ w' _, ∃ evs, trace w' = trace w ++ evs
                     ∧ history (db (state w')) = history (db (state w))) w.
Proof.
  unfold on_raw_reaction_remove, remove_voter, get_proposal, get_voter.
  wp_step. wp_step. repeat jstep.
  all: same_state; simplify_eq; journal; reflexivity.
Qed.

(** What a call that changes the history did: none of its steps failed,
    the row of the proposal under its key went in, and the proposal went
    out unless its deletion failed. *)
Lemma handle_closing env c w :
  consistent (state w) →
  let w' := final (exec env (handle env c) w) in
  ∃ evs, trace w' = trace w ++ evs ∧
    (history (db (state w')) = history (db (state w))
     ∨ (Forall (λ e, failed_step e = false) evs
        ∧ ∃ p, index (state w) !! key c = Some p
               ∧ db_ok env (insert_history (Proposals.id p)) = true
               ∧ if db_ok env (delete_proposal (Proposals.id p))
                 then index (state w') !! key c = None
                 else ∃ p', index (state w') !! key c = Some p'
                            ∧ Proposals.id p' = Proposals.id p)).
Proof.
  intros Hs w'. subst w'.
  assert (∀ k p, index (state w) !! k = Some p → Proposals.voting_message_id p = k) as Hkey
    by (intros k p; apply (live_key _ Hs)).
  destruct c as [payload|payload|vm]; cbn [handle key].
  - apply (add_closing env payload w (Hkey _)).
  - destruct (remove_closing env payload w) as (evs & Ht & Hh). exists evs. auto.
  - apply (grant_closing env vm w (Hkey _)).
Qed.

(** A call that changes the history archives the proposal under its key. *)
Lemma effect_archives c s s' p :
  consistent s → effect c s s' → index s !! key c = Some p →
  history (db s') ≠ history (db s) → archived_between s s' p.
Proof.
  intros Hs Heff Hp Hgrow.
  destruct c as [payload|payload|vm]; cbn [effect key] in *.
  - destruct Heff as [|p0 Hrec Hp0 Hfind|p0 r s1 Hrec Hp0 Hfind Hv Hstep]; [done|done|].
    assert (p0 = p) as -> by congruence.
    assert (consistent (put_proposal (voted (db s) p (Payload.user_id payload)) s)) as Hs1
      by by eapply voted_consistent.
    destruct (archive_step_fate _ Hs1 _ r s1 (lookup_put_proposal _ _) Hstep)
      as ([Hnew Hhas] & _ & _).
    split; [exact Hnew|exact Hhas].
  - by destruct Heff.
  - destruct Heff as [|p0 s1 Hp0 Hstep]; [done|]. assert (p0 = p) as -> by congruence.
    pose proof (live_key s Hs _ _ Hp) as Hk. rewrite <- Hk in Hp.
    by destruct (archive_step_fate s Hs p ACCEPTED s1 Hp Hstep) as (? & _ & _).
Qed.

(** C4 as stated fails.  With the deletion of the proposal row failing, the
    vote that reaches the threshold leaves the history row written and the
    proposal still in the dictionary and in the proposals table. *)
Lemma C4_row_written_proposal_kept :
  let w := world_with (proposal_with_threshold 1) in
  let w' := final (exec env_delete_fails (on_raw_reaction_add env_delete_fails (example_vote 5))
                        w) in
  db_ok env_delete_fails (delete_proposal 1) = false
  ∧ ProposalHistory.result <$> history (db (state w'))
    = [Some CANCELLED_BY_REACHING_THRESHOLD]
  ∧ is_Some (index (state w') !! 200)
  ∧ Proposals.id <$> proposals (db (state w')) = [1].
Proof. vm_compute. eauto. Qed.

(** C4 (amended). A closing transition writes the history row first and
    removes the proposal second, as two steps, whatever the outside
    answers.  When a step of the handler fails -- any Discord call but the
    reply of the error report -- or the insertion of the history row
    fails, nothing is archived: the history is as it was, and without a
    new history row every proposal is still live in the database and in
    the dictionary.  When the history has grown, it has the row of the
    proposal the call was about, and that proposal is out of the
    dictionary if its deletion went through and still live if it failed.
    A proposal that is no longer live has its history row, and a voter row
    disappears only with its archived proposal or by its own withdrawal:
    no record is dropped silently. *)
Theorem C4_history_then_removal env c w :
  consistent (state w) →
  let s := state w in
  let w' := final (exec env (handle env c) w) in
  let s' := state w' in
  (∀ p, p ∈ proposals (db s) → live_in s' p ∨ archived_between s s' p)
  ∧ (history (db s') = history (db s) → ∀ p, p ∈ proposals (db s) → live_in s' p)
  ∧ (∃ evs, trace w' = trace w ++ evs
            ∧ ((∃ e, e ∈ evs ∧ failed_step e = true) → history (db s') = history (db s)))
  ∧ (∀ p, index s !! key c = Some p →
       (db_ok env (insert_history (Proposals.id p)) = false →
          history (db s') = history (db s))
       ∧ (history (db s') ≠ history (db s) →
            archived_between s s' p
            ∧ if db_ok env (delete_proposal (Proposals.id p))
              then index s' !! key c = None
              else live_in s' p))
  ∧ (∀ v, v ∈ db_voters (db s) →
       v ∈ db_voters (db s')
       ∨ (∃ q, q ∈ proposals (db s) ∧ v ∈ Proposals.voters q ∧ archived_between s s' q)
       ∨ (∃ payload, c = vote_remove payload
                     ∧ find_voter (db s) (Payload.user_id payload)
                         (Payload.message_id payload) = Some v)).
Proof.
  intros Hs s w' s'. destruct (handle_run env c w) as [_ Heff]. fold w' in Heff.
  change (effect c s s') in Heff.
  assert (consistent s') as Hs' by by apply handle_consistent.
  destruct (handle_closing env c w Hs) as (evs & Ht & Hclosing). fold w' s s' in Ht, Hclosing.
  split_and!.
  - intros p Hp. destruct (effect_fate c s s' Hs Heff p Hp) as [?|[? _]]; auto.
  - intros Hsame p Hp. by destruct (effect_fate c s s' Hs Heff p Hp) as [?|[_ ?]].
  - exists evs. split; [done|]. intros (e & He & Hfailed).
    destruct Hclosing as [?|[Hall _]]; [done|].
    rewrite Forall_forall in Hall. rewrite (Hall e He) in Hfailed. done.
  - intros p Hp. split.
    + intros Hins. destruct Hclosing as [?|(_ & p0 & Hp0 & Hok & _)]; [done|].
      fold s in Hp0. congruence.
    + intros Hgrow. split; [by eapply effect_archives|].
      destruct Hclosing as [?|(_ & p0 & Hp0 & _ & Hdel)]; [done|].
      fold s in Hp0. assert (p0 = p) as -> by congruence.
      destruct (db_ok env (delete_proposal (Proposals.id p))); [done|].
      destruct Hdel as (p' & Hp' & Hid). exists p'. split_and!; [|done|].
      * by eapply live_in_db.
      * by rewrite (live_key s Hs _ _ Hp).
  - by apply effect_voters.
Qed.

Lemma voted_world_consistent : consistent (state voted_world).
Proof.
  apply (handle_consistent example_env (vote_add (example_vote 5)) example_world).
  by apply world_with_consistent.
Qed.

Lemma C4_witness :
  let c := vote_add (example_vote 7) in
  let s := state voted_world in
  let w' := final (exec env_suppress_fails (handle env_suppress_fails c) voted_world) in
  let s' := state w' in
  Failed (suppress_reply 11 100) ∈ trace w'
  ∧ history (db s') = []
  ∧ (∀ p, p ∈ proposals (db s) → live_in s' p ∨ archived_between s s' p)
  ∧ (history (db s') = history (db s) → ∀ p, p ∈ proposals (db s) → live_in s' p)
  ∧ (∃ evs, trace w' = trace voted_world ++ evs
            ∧ ((∃ e, e ∈ evs ∧ failed_step e = true) → history (db s') = history (db s)))
  ∧ (∀ p, index s !! key c = Some p →
       (db_ok env_suppress_fails (insert_history (Proposals.id p)) = false →
          history (db s') = history (db s))
       ∧ (history (db s') ≠ history (db s) →
            archived_between s s' p
            ∧ if db_ok env_suppress_fails (delete_proposal (Proposals.id p))
              then index s' !! key c = None
              else live_in s' p))
  ∧ (∀ v, v ∈ db_voters (db s) →
       v ∈ db_voters (db s')
       ∨ (∃ q, q ∈ proposals (db s) ∧ v ∈ Proposals.voters q ∧ archived_between s s' q)
       ∨ (∃ payload, c = vote_remove payload
                     ∧ find_voter (db s) (Payload.user_id payload)
                         (Payload.message_id payload) = Some v)).
Proof.
  split; [|split].
  - vm_compute. repeat (first [by apply list_elem_of_here | apply list_elem_of_further]).
  - by vm_compute.
  - apply (C4_history_then_removal env_suppress_fails (vote_add (example_vote 7)) voted_world).
    exact voted_world_consistent.
Defined.

(** The vote of the author on the example server where hiding the embeds
    of the reply fails: the vote is recorded, the cancellation is answered
    to the proposer, and nothing is archived. *)
Example failed_step_example :
  let w' := final (exec env_suppress_fails
                     (on_raw_reaction_add env_suppress_fails (example_vote 7)) voted_world) in
  Voters.user_id <$> db_voters (db (state w')) = [5; 7]
  ∧ is_Some (index (state w') !! 200)
  ∧ history (db (state w')) = []
  ∧ filter (λ e, failed_step e = true) (trace w') = [Failed (suppress_reply 11 100)].
Proof. vm_compute. split_and!; eauto. Qed.

(** ** The recovery gate *)

Section Blind.
Context {A B : Type} (env : Env).

Lemma blind_ret (a : A) : gate_blind env (ret a).
Proof. done. Qed.

Lemma blind_mret (a : A) : gate_blind env (mret a : M A).
Proof. done. Qed.

Lemma blind_raise e : gate_blind env (raise e : M A).
Proof. done. Qed.

Lemma blind_bind (m : M B) (k : B → M A) :
  gate_blind env m → (∀ b, gate_blind env (k b)) → gate_blind env (m ≫= k).
Proof.
  intros Hm Hk b w. rewrite !exec_bind, Hm.
  unfold final, outcome. destruct (exec env m w) as [w' [x|e]]; simpl; [apply Hk|done].
Qed.

Lemma blind_try_except (m : M A) (h : Exn → M A) :
  gate_blind env m → (∀ e, gate_blind env (h e)) → gate_blind env (try_except m h).
Proof.
  intros Hm Hh b w. rewrite !exec_try_except, Hm.
  unfold final, outcome. destruct (exec env m w) as [w' [x|e]]; simpl; [done|apply Hh].
Qed.

Lemma blind_attr (o : option A) : gate_blind env (attr o).
Proof. by destruct o. Qed.

Lemma blind_name (o : option A) : gate_blind env (name o).
Proof. by destruct o. Qed.
End Blind.

Lemma blind_try_except_ValueError {A} env (m h : M A) :
  gate_blind env m → gate_blind env h → gate_blind env (try_except_ValueError m h).
Proof.
  intros Hm Hh. apply blind_try_except; [done|].
  intros e. destruct (decide (e = ValueError)); [done|apply blind_raise].
Qed.

Lemma blind_log env l r : gate_blind env (log l r).
Proof. done. Qed.

Lemma blind_perform env a : gate_blind env (perform a).
Proof. intros b w. unfold perform; simpl. by destruct (io_ok env a). Qed.

Lemma blind_db_write env op : gate_blind env (db_write env op).
Proof. intros b w. unfold db_write. by destruct (db_ok env op). Qed.

Ltac unfold_helper :=
  unfold mbind, M_bind, gets, modify, db_write, final, outcome; simpl.

Lemma blind_get_proposal env vm : gate_blind env (get_proposal vm).
Proof.
  intros b w. unfold get_proposal. unfold_helper. by destruct (index (state w) !! vm).
Qed.

Lemma blind_is_relevant_proposal env m : gate_blind env (is_relevant_proposal m).
Proof. done. Qed.

Lemma blind_get_proposal_initiated_by env m : gate_blind env (get_proposal_initiated_by m).
Proof. done. Qed.

Lemma blind_get_voter env u vm : gate_blind env (get_voter u vm).
Proof. done. Qed.

Lemma blind_remove_voter env p v : gate_blind env (remove_voter env p v).
Proof.
  intros b w. unfold remove_voter. unfold_helper.
  by destruct (db_ok env (delete_voter (Voters.id v))).
Qed.

Lemma blind_remove_proposal env vm : gate_blind env (remove_proposal env vm).
Proof.
  intros b w. unfold remove_proposal, get_proposal. unfold_helper.
  destruct (index (state w) !! vm) as [p|]; [|done]. simpl.
  by destruct (db_ok env (delete_proposal (Proposals.id p))).
Qed.

Lemma blind_add_proposals_history_item env p r :
  gate_blind env (add_proposals_history_item env p r).
Proof.
  intros b w. unfold add_proposals_history_item. unfold_helper.
  destruct (db_ok env (insert_history (Proposals.id p))); [|done]. simpl.
  change (decide (has_history (set_recovery b (db (state w))) (Proposals.id p)))
    with (decide (has_history (db (state w)) (Proposals.id p))).
  by destruct (decide (has_history (db (state w)) (Proposals.id p))).
Qed.

(** Deciding gate-blindness by the shape of the computation. *)
Ltac blind :=
  repeat (cbv beta iota zeta;
    lazymatch goal with
    | |- gate_blind _ (mbind _ _) => apply blind_bind; [|intros ?]
    | |- gate_blind _ (ret _) => apply blind_ret
    | |- gate_blind _ (mret _) => apply blind_mret
    | |- gate_blind _ (raise _) => apply blind_raise
    | |- gate_blind _ (try_except_ValueError _ _) => apply blind_try_except_ValueError
    | |- gate_blind _ (try_except _ _) => apply blind_try_except; [|intros ?]
    | |- gate_blind _ (attr _) => apply blind_attr
    | |- gate_blind _ (name _) => apply blind_name
    | |- gate_blind _ (log _ _) => apply blind_log
    | |- gate_blind _ (perform _) => apply blind_perform
    | |- gate_blind _ (db_write _ _) => apply blind_db_write
    | |- gate_blind _ (get_proposal _) => apply blind_get_proposal
    | |- gate_blind _ (is_relevant_proposal _) => apply blind_is_relevant_proposal
    | |- gate_blind _ (get_proposal_initiated_by _) => apply blind_get_proposal_initiated_by
    | |- gate_blind _ (get_voter _ _) => apply blind_get_voter
    | |- gate_blind _ (remove_voter _ _ _) => apply blind_remove_voter
    | |- gate_blind _ (remove_proposal _ _) => apply blind_remove_proposal
    | |- gate_blind _ (add_proposals_history_item _ _ _) => apply blind_add_proposals_history_item
    | |- gate_blind _ (if ?b then _ else _) => destruct b
    | |- gate_blind _ (match ?x with _ => _ end) => destruct x
    end).

Lemma blind_is_valid env payload : gate_blind env (is_valid_voting_reaction env payload).
Proof. unfold is_valid_voting_reaction. blind. Qed.

Lemma blind_report_error env payload doing : gate_blind env (report_error env payload doing).
Proof. unfold report_error. blind. Qed.

Lemma blind_remove env payload : gate_blind env (on_raw_reaction_remove env payload).
Proof.
  unfold on_raw_reaction_remove. blind;
    first [apply blind_is_valid | apply blind_report_error].
Qed.

Lemma blind_grant env vm : gate_blind env (grant env vm).
Proof. unfold grant, grant_get, voting_channel_send. blind. Qed.

Lemma gate_set_vote_add env payload w :
  recovery (db (state w)) = true →
  state (final (exec env (on_raw_reaction_add env payload) w)) = state w.
Proof.
  intros Hrec. destruct (add_run env payload w) as [_ Heff].
  inversion Heff; congruence.
Qed.

Lemma gate_set_votes cs : ∀ w,
  recovery (db (state w)) = true →
  Forall (λ ec : Env * Call, is_vote_add ec.2) cs →
  state (run cs w) = state w.
Proof.
  induction cs as [|[env c] cs IH]; intros w Hrec Hall; [done|].
  apply Forall_cons in Hall as [Hc Hall]. destruct c; try done. simpl.
  pose proof (gate_set_vote_add env payload w Hrec) as Hsame.
  rewrite IH; [done| |done]. by rewrite Hsame.
Qed.

(** The vote that meets the gate: the voter is told in a direct message
    and the reaction is taken back. *)
Lemma gate_set_rejection env payload w reacting message :
  cooperative env →
  outcome (exec env (is_valid_voting_reaction env payload) w) = Ok (Some true) →
  recovery (db (state w)) = true →
  guild_get_member env (Payload.guild_id payload) (Payload.user_id payload) = Some reacting →
  get_message env (Payload.channel_id payload) (Payload.message_id payload) = Some message →
  trace (final (exec env (on_raw_reaction_add env payload) w))
  = trace (final (exec env (is_valid_voting_reaction env payload) w))
    ++ [Did (create_dm (member_id reacting));
        Did (dm_send (member_id reacting) (fmt VOTING_PAUSED_RECOVERY_RESPONSE []));
        Did (remove_reaction (msg_channel message) (msg_id message)
               (Payload.emoji_name payload) (Some (member_id reacting)));
        Logged INFO (rejecting_vote_recovery (member_mention reacting))].
Proof.
  intros [Hio Hdb] Hvalid Hrec Hmember Hmessage.
  destruct (is_valid_spec env payload w) as [_ Hinv].
  destruct (Hinv Hvalid) as (_ & _ & _ & Hguild).
  pattern (final (exec env (on_raw_reaction_add env payload) w)). apply wp_final.
  unfold on_raw_reaction_add, is_recovery.
  wp_step. wp_step. eapply wp_is_valid_known; [exact Hvalid|]. intros ? ? ?.
  repeat cstep Hio Hdb.
  same_state. simplify_eq. by rewrite <- !app_assoc.
Qed.

(** C6. While the recovery gate is set, a vote cast changes nothing in the
    dictionary or the database -- voter counts and proposals stay as they
    are, for as many votes as arrive while it is set -- and the voter of a
    valid vote is told so in a direct message and the reaction is taken
    back.  A withdrawn vote and an elapsed timer are handled as with the
    gate clear: the handlers do exactly what they do otherwise. *)
Theorem C6_recovery_gate env w :
  recovery (db (state w)) = true →
  (∀ cs, Forall (λ ec : Env * Call, is_vote_add ec.2) cs → state (run cs w) = state w)
  ∧ (∀ payload reacting message,
       cooperative env →
       outcome (exec env (is_valid_voting_reaction env payload) w) = Ok (Some true) →
       guild_get_member env (Payload.guild_id payload) (Payload.user_id payload)
         = Some reacting →
       get_message env (Payload.channel_id payload) (Payload.message_id payload)
         = Some message →
       trace (final (exec env (on_raw_reaction_add env payload) w))
       = trace (final (exec env (is_valid_voting_reaction env payload) w))
         ++ [Did (create_dm (member_id reacting));
             Did (dm_send (member_id reacting) (fmt VOTING_PAUSED_RECOVERY_RESPONSE []));
             Did (remove_reaction (msg_channel message) (msg_id message)
                    (Payload.emoji_name payload) (Some (member_id reacting)));
             Logged INFO (rejecting_vote_recovery (member_mention reacting))])
  ∧ (∀ c b, ¬ is_vote_add c →
       exec env (handle env c) (gate b w)
       = (gate b (final (exec env (handle env c) w)), outcome (exec env (handle env c) w))).
Proof.
  intros Hrec. split_and!.
  - intros cs Hcs. by apply gate_set_votes.
  - intros payload reacting message Hco Hvalid Hmember Hmessage.
    by apply gate_set_rejection.
  - intros [payload|payload|vm] b Hc; [by destruct Hc| |].
    + apply blind_remove.
    + apply blind_grant.
Qed.

Lemma C6_witness :
  let w := gate true example_world in
  (∀ cs, Forall (λ ec : Env * Call, is_vote_add ec.2) cs → state (run cs w) = state w)
  ∧ (∀ payload reacting message,
       cooperative example_env →
       outcome (exec example_env (is_valid_voting_reaction example_env payload)
                     w) = Ok (Some true) →
       guild_get_member example_env (Payload.guild_id payload) (Payload.user_id payload)
         = Some reacting →
       get_message example_env (Payload.channel_id payload) (Payload.message_id payload)
         = Some message →
       trace (final (exec example_env (on_raw_reaction_add example_env payload) w))
       = trace (final (exec example_env (is_valid_voting_reaction example_env payload) w))
         ++ [Did (create_dm (member_id reacting));
             Did (dm_send (member_id reacting) (fmt VOTING_PAUSED_RECOVERY_RESPONSE []));
             Did (remove_reaction (msg_channel message) (msg_id message)
                    (Payload.emoji_name payload) (Some (member_id reacting)));
             Logged INFO (rejecting_vote_recovery (member_mention reacting))])
  ∧ (∀ c b, ¬ is_vote_add c →
       exec example_env (handle example_env c) (gate b w)
       = (gate b (final (exec example_env (handle example_env c) w)),
          outcome (exec example_env (handle example_env c) w))).
Proof. apply (C6_recovery_gate example_env (gate true example_world)). reflexivity. Defined.

(** With the gate set, the vote of user 5 is turned down and a withdrawal
    is still honoured. *)
Example gate_set_example :
  let w := gate true example_world in
  state (final (exec example_env (on_raw_reaction_add example_env (example_vote 5)) w)) = state w
  ∧ trace (final (exec example_env (on_raw_reaction_add example_env (example_vote 5)) w))
    = [Did (create_dm 5);
       Did (dm_send 5 (fmt VOTING_PAUSED_RECOVERY_RESPONSE []));
       Did (remove_reaction 10 200 "x" (Some 5));
       Logged INFO (rejecting_vote_recovery "<@someone>")].
Proof. vm_compute. done. Qed.

(** ** Withdrawing a vote *)

Lemma filter_out_absent {A} `{EqDecision A} (l : list A) (x : A) :
  x ∉ l → filter (λ y, y ≠ x) l = l.
Proof.
  induction l as [|a l IH]; intros Hx; [done|].
  apply not_elem_of_cons in Hx as [Hne Hx]. rewrite filter_cons.
  rewrite decide_True by done. by rewrite IH.
Qed.

Lemma filter_out_one {A} `{EqDecision A} (l : list A) (x : A) :
  NoDup l → x ∈ l → (length (filter (λ y, y ≠ x) l) + 1 = length l)%nat.
Proof.
  induction l as [|a l IH]; intros Hnd Hx; [by apply elem_of_nil in Hx|].
  apply NoDup_cons in Hnd as [Ha Hnd]. rewrite filter_cons.
  destruct (decide (a = x)) as [->|Hne].
  - rewrite decide_False by (intros H'; by apply H').
    rewrite filter_out_absent by done. simpl. lia.
  - rewrite decide_True by done. simpl.
    apply elem_of_cons in Hx as [->|Hx]; [done|]. by rewrite IH.
Qed.

Lemma remove_run_withdraw env w payload p v :
  cooperative env →
  outcome (exec env (is_valid_voting_reaction env payload) w) = Ok (Some true) →
  index (state w) !! Payload.message_id payload = Some p →
  find_voter (db (state w)) (Payload.user_id payload) (Payload.message_id payload) = Some v →
  state (final (exec env (on_raw_reaction_remove env payload)
                     w)) = put_proposal (unvoted p v) (state w).
Proof.
  intros [Hio Hdb] Hvalid Hp Hfind.
  pattern (final (exec env (on_raw_reaction_remove env payload) w)). apply wp_final.
  unfold on_raw_reaction_remove, get_proposal, get_voter, remove_voter.
  wp_step. wp_step. eapply wp_is_valid_known; [exact Hvalid|]. intros ? ? ?.
  repeat cstep Hio Hdb.
  same_state. by simplify_eq.
Qed.

Lemma remove_run_absent env w payload :
  outcome (exec env (is_valid_voting_reaction env payload) w) = Ok (Some true) →
  find_voter (db (state w)) (Payload.user_id payload) (Payload.message_id payload) = None →
  trace (final (exec env (on_raw_reaction_remove env payload) w))
  = trace (final (exec env (is_valid_voting_reaction env payload) w))
    ++ [Logged WARNING (voter_not_in_db (Payload.user_id payload)
                          (Payload.message_id payload))].
Proof.
  intros Hvalid Hfind.
  destruct (is_valid_spec env payload w) as [_ Hinv].
  destruct (Hinv Hvalid) as ([p Hp] & _).
  pattern (final (exec env (on_raw_reaction_remove env payload) w)). apply wp_final.
  unfold on_raw_reaction_remove, get_proposal, get_voter, remove_voter.
  wp_step. wp_step. eapply wp_is_valid_known; [exact Hvalid|]. intros ? ? ?.
  repeat (wp_step; try prune).
  same_state. congruence.
Qed.

(** C7. A withdrawn vote deletes the voter row of that user on that
    proposal and nothing else: the history and the gate stay as they are,
    every proposal stays live (no cancellation, no acceptance, no threshold
    test), the other voter rows and the other proposals are untouched.  When
    the calls go through the row is deleted.  Without such a row nothing
    changes and a warning is logged. *)
Theorem C7_vote_remove env w payload :
  consistent (state w) →
  let s := state w in
  let w' := final (exec env (on_raw_reaction_remove env payload) w) in
  let s' := state w' in
  let found := find_voter (db s) (Payload.user_id payload) (Payload.message_id payload) in
  (history (db s') = history (db s)
   ∧ recovery (db s') = recovery (db s)
   ∧ dom (index s') = dom (index s)
   ∧ ∀ q, q ∈ proposals (db s) → live_in s' q)
  ∧ (s' = s
     ∨ ∃ p v, index s !! Payload.message_id payload = Some p
              ∧ found = Some v
              ∧ v ∈ Proposals.voters p
              ∧ s' = put_proposal (unvoted p v) s
              ∧ (∀ x, x ∈ Proposals.voters (unvoted p v) ↔ x ∈ Proposals.voters p ∧ x ≠ v)
              ∧ (length (Proposals.voters (unvoted p v)) + 1
                 = length (Proposals.voters p))%nat
              ∧ (∀ q, q ∈ proposals (db s) → Proposals.id q ≠ Proposals.id p →
                      q ∈ proposals (db s')
                      ∧ index s' !! Proposals.voting_message_id q = Some q))
  ∧ (cooperative env →
     outcome (exec env (is_valid_voting_reaction env payload) w) = Ok (Some true) →
     ∀ v, found = Some v →
          ∃ p, index s !! Payload.message_id payload = Some p
               ∧ s' = put_proposal (unvoted p v) s)
  ∧ (found = None → s' = s)
  ∧ (outcome (exec env (is_valid_voting_reaction env payload) w) = Ok (Some true) →
     found = None →
     trace w' = trace (final (exec env (is_valid_voting_reaction env payload) w))
                ++ [Logged WARNING (voter_not_in_db (Payload.user_id payload)
                                      (Payload.message_id payload))]).
Proof.
  intros Hs s w' s' found.
  destruct (remove_run env payload w) as [_ Heff]. fold s w' s' in Heff.
  assert (history (db s') = history (db s)) as Hhist by by inversion Heff.
  split_and!.
  - done.
  - by inversion Heff.
  - inversion Heff as [|p v Hp Hfind]; [done|].
    cbn [put_proposal index]. apply dom_insert_lookup_L.
    cbn [unvoted Proposals.set_voters Proposals.voting_message_id].
    rewrite (live_key s Hs _ _ Hp). eauto.
  - intros q Hq.
    by destruct (effect_fate (vote_remove payload) s s' Hs Heff q Hq) as [?|[_ ?]].
  - inversion Heff as [|p v Hp Hfind]; [by left|]. right.
    destruct (find_voter_Some s Hs _ _ _ _ Hp Hfind) as [Hv _].
    pose proof (live_key s Hs _ _ Hp) as Hk. pose proof Hp as Hp'. rewrite <- Hk in Hp'.
    exists p, v. split_and!; [done..| | |].
    + intros x. cbn [unvoted Proposals.set_voters Proposals.voters].
      rewrite list_elem_of_filter. tauto.
    + cbn [unvoted Proposals.set_voters Proposals.voters]. apply filter_out_one; [|done].
      eapply NoDup_fmap_1, (one_vote_per_user s Hs), live_in_db; eauto.
    + intros q Hq Hne. by apply put_proposal_other.
  - intros Hco Hvalid v Hfind.
    destruct (is_valid_spec env payload w) as [_ Hinv].
    destruct (Hinv Hvalid) as ([p Hp] & _).
    exists p. split; [done|]. by apply remove_run_withdraw.
  - intros Hnone. inversion Heff as [|p v Hp Hfind]; [done|]. subst found. congruence.
  - intros Hvalid Hnone. by apply remove_run_absent.
Qed.

Lemma C7_witness :
  let s := state voted_world in
  let w' := final (exec example_env (on_raw_reaction_remove example_env (example_withdrawal 5))
                        voted_world) in
  let s' := state w' in
  let found := find_voter (db s) 5 200 in
  (history (db s') = history (db s)
   ∧ recovery (db s') = recovery (db s)
   ∧ dom (index s') = dom (index s)
   ∧ ∀ q, q ∈ proposals (db s) → live_in s' q)
  ∧ (s' = s
     ∨ ∃ p v, index s !! 200 = Some p
              ∧ found = Some v
              ∧ v ∈ Proposals.voters p
              ∧ s' = put_proposal (unvoted p v) s
              ∧ (∀ x, x ∈ Proposals.voters (unvoted p v) ↔ x ∈ Proposals.voters p ∧ x ≠ v)
              ∧ (length (Proposals.voters (unvoted p v)) + 1
                 = length (Proposals.voters p))%nat
              ∧ (∀ q, q ∈ proposals (db s) → Proposals.id q ≠ Proposals.id p →
                      q ∈ proposals (db s')
                      ∧ index s' !! Proposals.voting_message_id q = Some q))
  ∧ (cooperative example_env →
     outcome (exec example_env (is_valid_voting_reaction example_env (example_withdrawal 5))
                   voted_world)
       = Ok (Some true) →
     ∀ v, found = Some v →
          ∃ p, index s !! 200 = Some p ∧ s' = put_proposal (unvoted p v) s)
  ∧ (found = None → s' = s)
  ∧ (outcome (exec example_env (is_valid_voting_reaction example_env (example_withdrawal 5))
                   voted_world)
       = Ok (Some true) →
     found = None →
     trace w'
     = trace (final (exec example_env
                       (is_valid_voting_reaction example_env (example_withdrawal 5))
                       voted_world))
       ++ [Logged WARNING (voter_not_in_db 5 200)]).
Proof.
  apply (C7_vote_remove example_env voted_world (example_withdrawal 5)).
  apply (handle_consistent example_env (vote_add (example_vote 5)) example_world).
  by apply world_with_consistent.
Defined.

(** User 5 votes and withdraws: the proposal is back to no voters, still
    live, and nothing is in the history. *)
Example vote_then_withdraw :
  let w' := final (exec example_env (on_raw_reaction_remove example_env (example_withdrawal 5))
                        voted_world) in
  (Proposals.voters <$> index (state voted_world) !! 200)
  = Some [Voters.mk (Some 1) 5 200 (Some 1)]
  ∧ index (state w') !! 200 = Some example_proposal
  ∧ db (state w') = db (state example_world).
Proof. vm_compute. done. Qed.

(** ** The history is append-only *)

Lemma archive_step_history p r s s' :
  archive_step p r s s' →
  ∃ h, history (db s') = history (db s) ++ [h] ∧ is_history_of p r h.
Proof. intros [h Hh _|h Hh _]; by exists h. Qed.

Lemma effect_history c s s' :
  effect c s s' → history (db s) `prefix_of` history (db s').
Proof.
  intros Heff.
  assert (∀ p r s1 s2, history (db s1) = history (db s) → archive_step p r s1 s2 →
            history (db s) `prefix_of` history (db s2)) as Harchive.
  { intros p r s1 s2 Hsame (h & -> & _)%archive_step_history. rewrite Hsame.
    by apply prefix_app_r. }
  destruct c; simpl in Heff.
  - destruct Heff as [| |p r s1 _ _ _ _ Hstep]; [done..|].
    eapply Harchive; [|exact Hstep]. done.
  - by destruct Heff.
  - destruct Heff as [|p s1 _ Hstep]; [done|]. eapply Harchive; [|exact Hstep]. done.
Qed.

Lemma run_history cs : ∀ w,
  history (db (state w)) `prefix_of` history (db (state (run cs w))).
Proof.
  induction cs as [|[env c] cs IH]; intros w; [done|]. simpl.
  etrans; [|apply IH]. apply effect_history with c, handle_run.
Qed.

Lemma archive_step_one_row_each p r s s' :
  archive_step p r s s' →
  NoDup (ProposalHistory.id <$> history (db s)) →
  NoDup (ProposalHistory.id <$> history (db s')).
Proof.
  intros Hstep Hnd.
  assert (∀ h, is_history_of p r h → ¬ has_history (db s) (Proposals.id p) →
            NoDup (ProposalHistory.id <$> (history (db s) ++ [h]))) as Happ.
  { intros h [Hbase _] Hnew. rewrite fmap_app. apply NoDup_app. split_and!; [done| |].
    - intros i Hi ->%list_elem_of_singleton. apply Hnew.
      apply list_elem_of_fmap in Hi as (h' & Hid & Hh'). apply Exists_exists.
      exists h'. split; [done|]. rewrite <- Hid. unfold ProposalHistory.id. by rewrite Hbase.
    - apply NoDup_singleton. }
  destruct Hstep as [h Hh Hnew|h Hh Hnew]; by apply Happ.
Qed.

Lemma effect_one_row_each c s s' :
  effect c s s' →
  NoDup (ProposalHistory.id <$> history (db s)) →
  NoDup (ProposalHistory.id <$> history (db s')).
Proof.
  intros Heff Hnd. destruct c; simpl in Heff.
  - destruct Heff as [| |p r s1 _ _ _ _ Hstep]; [done..|].
    by eapply archive_step_one_row_each.
  - by destruct Heff.
  - destruct Heff as [|p s1 _ Hstep]; [done|]. by eapply archive_step_one_row_each.
Qed.

(** What the removal of a proposal row by a call comes with. *)
Lemma removal_comes_archived c s s' p :
  consistent s → effect c s s' → p ∈ proposals (db s) →
  (∀ q, q ∈ proposals (db s') → Proposals.id q ≠ Proposals.id p) →
  (∀ v, v ∈ db_voters (db s') → Voters.grant_proposal_id v ≠ Some (Proposals.id p))
  ∧ index s' !! Proposals.voting_message_id p = None
  ∧ ∃ h r, history (db s') = history (db s) ++ [h]
           ∧ ProposalHistory.id h = Proposals.id p
           ∧ ProposalHistory.result h = Some r
           ∧ result_matches c s p r.
Proof.
  intros Hs Heff Hp Hgone.
  assert (∀ s1 p1 r,
            consistent s1 → index s1 !! Proposals.voting_message_id p1 = Some p1 →
            Proposals.id p1 = Proposals.id p →
            Proposals.voting_message_id p1 = Proposals.voting_message_id p →
            history (db s1) = history (db s) →
            archive_step p1 r s1 s' →
            (∀ v, v ∈ db_voters (db s') → Voters.grant_proposal_id v ≠ Some (Proposals.id p))
            ∧ index s' !! Proposals.voting_message_id p = None
            ∧ ∃ h, history (db s') = history (db s) ++ [h]
                   ∧ ProposalHistory.id h = Proposals.id p
                   ∧ ProposalHistory.result h = Some r) as Harchive.
  { intros s1 p1 r Hs1 Hp1 Hid Hvm Hhist Hstep.
    pose proof (live_in_db s1 Hs1 _ _ Hp1) as Hp1db.
    destruct Hstep as [h [Hbase Hres] Hnew|h [Hbase Hres] Hnew].
    - exfalso. apply (Hgone p1); [done|]. done.
    - split_and!.
      + intros v [q [Hq Hv]]%elem_of_db_voters.
        cbn [drop_proposal put_history set_db db set_proposals proposals] in Hq.
        apply list_elem_of_filter in Hq as [Hne Hq].
        destruct (voters_of_parent s1 Hs1 q v Hq Hv) as [_ ->]. congruence.
      + cbn [drop_proposal index]. rewrite Hvm. apply lookup_delete_eq.
      + exists h. split_and!; [by rewrite <- Hhist| |done].
        unfold ProposalHistory.id. by rewrite Hbase. }
  assert (∀ s1, (∀ q, q ∈ proposals (db s) → live_in s1 q) → s' = s1 → False) as Hlive.
  { intros s1 Hl ->. destruct (Hl p Hp) as (p' & Hp' & Hid & _). by apply (Hgone p'). }
  destruct c; simpl in Heff.
  - destruct Heff as [|p0 Hrec Hp0 Hfind|p0 r s1 Hrec Hp0 Hfind Hv Hstep].
    + exfalso. eapply Hlive; [|done]. intros q Hq. by apply live_in_refl.
    + exfalso. eapply Hlive; [|done]. intros q Hq.
      pose proof (live_key s Hs _ _ Hp0) as Hk. rewrite <- Hk in Hp0.
      by apply put_proposal_live.
    + pose proof (live_key s Hs _ _ Hp0) as Hk. rewrite <- Hk in *.
      set (p' := voted (db s) p0 (Payload.user_id payload)) in *.
      assert (consistent (put_proposal p' s)) as Hs1 by by eapply voted_consistent.
      assert (Proposals.id p0 = Proposals.id p) as Hid.
      { destruct (decide (Proposals.id p = Proposals.id p0)) as [|Hne]; [done|]. exfalso.
        destruct (put_proposal_other s Hs p0 (Proposals.voters p') p) as [Hp1 _]; [done..|].
        destruct (archive_step_fate _ Hs1 p' r s1 (lookup_put_proposal _ _) Hstep)
          as (_ & _ & Hkept).
        destruct (Hkept p Hp1 Hne) as [? _]. by apply (Hgone p). }
      assert (p0 = p) as ->
        by (apply (same_id_same_row s Hs); [by eapply live_in_db|done..]).
      destruct (Harchive (put_proposal p' s) p' r) as (? & ? & h & ? & ? & ?);
        [done|apply lookup_put_proposal|done..|].
      split_and!; [done..|]. by exists h, r.
  - destruct Heff as [|p0 v Hp0 Hfind].
    + exfalso. eapply Hlive; [|done]. intros q Hq. by apply live_in_refl.
    + exfalso. eapply Hlive; [|done]. intros q Hq.
      pose proof (live_key s Hs _ _ Hp0) as Hk. rewrite <- Hk in Hp0.
      by apply put_proposal_live.
  - destruct Heff as [|p0 s1 Hp0 Hstep].
    + exfalso. eapply Hlive; [|done]. intros q Hq. by apply live_in_refl.
    + pose proof (live_key s Hs _ _ Hp0) as Hk. rewrite <- Hk in Hp0.
      assert (Proposals.id p0 = Proposals.id p) as Hid.
      { destruct (decide (Proposals.id p = Proposals.id p0)) as [|Hne]; [done|]. exfalso.
        destruct (archive_step_fate _ Hs p0 ACCEPTED s1 Hp0 Hstep) as (_ & _ & Hkept).
        destruct (Hkept p Hp Hne) as [? _]. by apply (Hgone p). }
      assert (p0 = p) as ->
        by (apply (same_id_same_row s Hs); [by eapply live_in_db|done..]).
      destruct (Harchive s p ACCEPTED) as (? & ? & h & ? & ? & ?); [done..|].
      split_and!; [done..|]. by exists h, ACCEPTED.
Qed.

(** C8. A call that deletes a proposal leaves no voter row of that proposal
    (they go with the row), removes it from the dictionary, and adds exactly
    one history row, for that proposal and with the result of the
    transition: accepted for an elapsed timer, cancelled by the proposer
    for the author's vote, cancelled by threshold otherwise.  The history
    keeps one row per proposal, and whatever calls follow, under whatever
    the outside answers, the rows written stay as they are, in place. *)
Theorem C8_archive_cascade_and_history env c w p :
  consistent (state w) →
  p ∈ proposals (db (state w)) →
  let s := state w in
  let w' := final (exec env (handle env c) w) in
  let s' := state w' in
  (∀ q, q ∈ proposals (db s') → Proposals.id q ≠ Proposals.id p) →
  (∀ v, v ∈ db_voters (db s') → Voters.grant_proposal_id v ≠ Some (Proposals.id p))
  ∧ index s' !! Proposals.voting_message_id p = None
  ∧ (∃ h r, history (db s') = history (db s) ++ [h]
            ∧ ProposalHistory.id h = Proposals.id p
            ∧ ProposalHistory.result h = Some r
            ∧ result_matches c s p r)
  ∧ (NoDup (ProposalHistory.id <$> history (db s)) →
     NoDup (ProposalHistory.id <$> history (db s')))
  ∧ (∀ cs, history (db s') `prefix_of` history (db (state (run cs w')))).
Proof.
  intros Hs Hp s w' s' Hgone.
  destruct (handle_run env c w) as [_ Heff]. fold s w' s' in Heff.
  destruct (removal_comes_archived c s s' p Hs Heff Hp Hgone) as (Hcascade & Hindex & Hrow).
  split_and!; [done..| |].
  - by apply effect_one_row_each with c.
  - intros cs. apply run_history.
Qed.

Lemma C8_witness :
  let s := state example_world in
  let w' := final (exec example_env (handle example_env (vote_add (example_vote 7)))
                        example_world) in
  let s' := state w' in
  (∀ v, v ∈ db_voters (db s') → Voters.grant_proposal_id v ≠ Some 1)
  ∧ index s' !! 200 = None
  ∧ (∃ h r, history (db s') = history (db s) ++ [h]
            ∧ ProposalHistory.id h = 1
            ∧ ProposalHistory.result h = Some r
            ∧ result_matches (vote_add (example_vote 7)) s example_proposal r)
  ∧ (NoDup (ProposalHistory.id <$> history (db s)) →
     NoDup (ProposalHistory.id <$> history (db s')))
  ∧ (∀ cs, history (db s') `prefix_of` history (db (state (run cs w')))).
Proof.
  apply (C8_archive_cascade_and_history example_env (vote_add (example_vote 7))
           example_world example_proposal).
  - by apply world_with_consistent.
  - apply list_elem_of_singleton. reflexivity.
  - intros q Hq. vm_compute in Hq. by apply elem_of_nil in Hq.
Defined.

(** Two votes, then the timer: the proposal is accepted, its two voter
    rows are gone with it, and a later vote on it changes nothing. *)
Example accepted_with_votes :
  let w2 := run [(example_env, vote_add (example_vote 5));
                 (example_env, vote_add (example_vote 6))] example_world in
  let w3 := final (exec example_env (grant example_env 200) w2) in
  length (db_voters (db (state w2))) = 2%nat
  ∧ db_voters (db (state w3)) = []
  ∧ ProposalHistory.result <$> history (db (state w3)) = [Some ACCEPTED]
  ∧ state (final (exec example_env (on_raw_reaction_add example_env (example_vote 8))
                       w3)) = state w3.
Proof. vm_compute. done. Qed.

(** ** Reactions that are no votes *)

(** The validity check issues calls only for the cancel emoji of an
    eligible member on a message that started a live proposal. *)
Lemma is_valid_trace env payload w :
  wp env (is_valid_voting_reaction env payload)
     (λ w' _, trace w' = trace w
              ∨ (Payload.emoji_name payload = CANCEL_EMOJI_UNICODE (const env)
                 ∧ Payload.event_type payload = "REACTION_ADD"
                 ∧ client_get_guild env (Payload.guild_id payload) = true
                 ∧ guild_get_channel env (Payload.guild_id payload)
                     (Payload.channel_id payload) = true
                 ∧ validate_roles env (guild_get_member env (Payload.guild_id payload)
                                         (Payload.user_id payload)) = true
                 ∧ is_Some (find_initiated_by (index (state w))
                              (Payload.message_id payload)))) w.
Proof.
  unfold is_valid_voting_reaction, get_proposal_initiated_by, is_relevant_proposal.
  wp_steps.
  all: tidy; first [by left | right; split_and!; by eauto].
Qed.

(** The calls of the check for a vote on the wrong message. *)
Lemma is_valid_wrong_message env payload w m q voting_message :
  Payload.emoji_name payload = CANCEL_EMOJI_UNICODE (const env) →
  Payload.event_type payload = "REACTION_ADD" →
  client_get_guild env (Payload.guild_id payload) = true →
  guild_get_member env (Payload.guild_id payload) (Payload.user_id payload) = Some m →
  validate_roles env (Some m) = true →
  guild_get_channel env (Payload.guild_id payload) (Payload.channel_id payload) = true →
  find_initiated_by (index (state w)) (Payload.message_id payload) = Some q →
  get_message env (VOTING_CHANNEL_ID (const env)) (Proposals.voting_message_id q)
    = Some voting_message →
  (Payload.channel_id payload ∈ CHANNELS_TO_REMOVE_HELPER_MESSAGES_AND_REACTIONS (const env) →
   is_Some (fetch_message env (Payload.channel_id payload) (Payload.message_id payload))) →
  let reaction_message :=
    if decide (Payload.channel_id payload
               ∈ CHANNELS_TO_REMOVE_HELPER_MESSAGES_AND_REACTIONS (const env))
    then fetch_message env (Payload.channel_id payload) (Payload.message_id payload)
    else None in
  trace (final (exec env (is_valid_voting_reaction env payload) w))
  = trace w ++ attempts env (wrong_message_calls env payload m reaction_message voting_message).
Proof.
  intros Hemoji Hadd Hguild Hmember Hrole Hchannel Hq Hvm Hfetch reaction_message.
  subst reaction_message.
  pattern (final (exec env (is_valid_voting_reaction env payload) w)). apply wp_final.
  unfold is_valid_voting_reaction, get_proposal_initiated_by, is_relevant_proposal.
  wp_steps.
  all: tidy; simplify_eq; try congruence.
  all: try (destruct Hfetch as [? ?]; [done|congruence]).
  all: try rewrite decide_True by done; try rewrite decide_False by done.
  all: try match goal with Hm : guild_get_member _ _ _ = Some _ |- _ => rewrite Hm in * end.
  all: unfold wrong_message_calls; cbn [app attempts fmap option_fmap option_map] in *.
  all: repeat match goal with H : io_ok _ _ = _ |- _ => rewrite H end.
  all: by rewrite <- ?app_assoc.
Qed.

Lemma report_error_trace env payload doing w :
  wp env (report_error env payload doing)
     (λ w' o, o = Ok tt ∧ state w' = state w
              ∧ trace w' = trace w ++ report_events env payload doing) w.
Proof.
  unfold report_error, report_events. wp_steps.
  all: tidy; split_and!; [done..|].
  all: repeat match goal with H : _ = _ |- _ => rewrite H end.
  all: by rewrite <- ?app_assoc.
Qed.

Lemma wp_report_error_trace env payload doing (Q : World → Outcome unit → Prop) w :
  (∀ w', state w' = state w → trace w' = trace w ++ report_events env payload doing →
         Q w' (Ok tt)) →
  wp env (report_error env payload doing) Q w.
Proof.
  intros H. eapply wp_mono; [apply report_error_trace|].
  intros w' o (-> & Hs & Ht). by apply H.
Qed.

Lemma wp_exec {A} env (m : M A) (Q : World → Outcome A → Prop) w :
  (∀ w' o, exec env m w = (w', o) → Q w' o) → wp env m Q w.
Proof. intros H. unfold wp. apply H. by destruct (exec env m w). Qed.

Lemma invalid_reaction env w payload :
  outcome (exec env (is_valid_voting_reaction env payload) w) ≠ Ok (Some true) →
  let check := exec env (is_valid_voting_reaction env payload) w in
  let r := exec env (on_raw_reaction_add env payload) w in
  outcome r = Ok tt
  ∧ state (final r) = state w
  ∧ trace (final r)
    = trace (final check) ++ after_invalid_reaction env payload (outcome check).
Proof.
  intros Hinvalid check r. subst check r.
  pose proof (is_valid_spec env payload w) as [Hstate _].
  change (wp env (on_raw_reaction_add env payload)
            (λ w' o, o = Ok tt ∧ state w' = state w
                     ∧ trace w'
                       = trace (final (exec env (is_valid_voting_reaction env payload) w))
                         ++ after_invalid_reaction env payload
                              (outcome (exec env (is_valid_voting_reaction env payload) w)))
            w).
  unfold on_raw_reaction_add. wp_step. wp_step. apply wp_exec. intros w1 o Hex.
  rewrite Hex in *. cbn [final outcome fst snd] in *.
  unfold after_invalid_reaction.
  destruct o as [v|e].
  - assert (truthy v = false) as -> by (by destruct v as [[]|]).
    cbn [negb].
    repeat first [apply wp_report_error_trace; intros ? ? ? | wp_step].
    all: same_state; split_and!; [done..|].
    all: repeat match goal with H : _ = _ |- _ => rewrite H end.
    all: try (by rewrite <- ?app_assoc).
    all: try (by rewrite app_nil_r).
  - cbv beta iota. apply wp_report_error_trace. intros w' Hs Ht. split_and!; [done|congruence|done].
Qed.

(** C10 as stated fails.  User 5 puts the cancel emoji on the message the
    proposal was requested in.  The reaction is no valid vote and no heart,
    and yet calls are issued: the reaction is taken back and the user is
    sent the link to the voting message. *)
Lemma C10_wrong_message_reaction_acts :
  let payload := wrong_message_vote 5 in
  outcome (exec example_env (is_valid_voting_reaction example_env payload)
                example_world) = Ok (Some false)
  ∧ (Payload.emoji_name payload ∉ HEART_EMOJI_LIST example_const)
  ∧ trace (final (exec example_env (on_raw_reaction_add example_env payload) example_world))
    = [Did (remove_reaction 11 100 "x" (Some 5));
       Did (create_dm 5);
       Did (dm_send 5 (fmt HELP_MESSAGE_VOTED_INCORRECTLY [("voting_link", a_str "url")]))].
Proof.
  split_and!; [by vm_compute| |by vm_compute].
  intros H%list_elem_of_singleton. discriminate.
Qed.

(** C10 (amended). A reaction that is no valid vote -- the validity check
    returns something else than [True], or raises -- changes nothing in
    the dictionary or the database, and the handler returns normally.
    What the handler itself does then is [after_invalid_reaction]: when
    the check returned, a heart is put on the message once more (and the
    error is reported when the message is not found or the call fails)
    and any other emoji is left alone, with no call; when the check
    raised, the handler posts its error reply and logs the error.  The
    only other calls are those of the validity check itself, made only for
    the cancel emoji an eligible member puts on a message that started a
    live proposal: the reaction is taken back where the channel is
    configured for it, and the member is sent the link to the voting
    message, up to the first call that fails. *)
Theorem C10_reaction_that_is_no_vote env w payload :
  outcome (exec env (is_valid_voting_reaction env payload) w) ≠ Ok (Some true) →
  let check := exec env (is_valid_voting_reaction env payload) w in
  let r := exec env (on_raw_reaction_add env payload) w in
  outcome r = Ok tt
  ∧ state (final r) = state w
  ∧ trace (final r) = trace (final check) ++ after_invalid_reaction env payload (outcome check)
  ∧ (trace (final check) ≠ trace w →
     Payload.emoji_name payload = CANCEL_EMOJI_UNICODE (const env)
     ∧ Payload.event_type payload = "REACTION_ADD"
     ∧ client_get_guild env (Payload.guild_id payload) = true
     ∧ guild_get_channel env (Payload.guild_id payload) (Payload.channel_id payload) = true
     ∧ validate_roles env (guild_get_member env (Payload.guild_id payload)
                             (Payload.user_id payload)) = true
     ∧ is_Some (find_initiated_by (index (state w)) (Payload.message_id payload)))
  ∧ (∀ m q voting_message,
       Payload.emoji_name payload = CANCEL_EMOJI_UNICODE (const env) →
       Payload.event_type payload = "REACTION_ADD" →
       client_get_guild env (Payload.guild_id payload) = true →
       guild_get_member env (Payload.guild_id payload) (Payload.user_id payload) = Some m →
       validate_roles env (Some m) = true →
       guild_get_channel env (Payload.guild_id payload) (Payload.channel_id payload) = true →
       find_initiated_by (index (state w)) (Payload.message_id payload) = Some q →
       get_message env (VOTING_CHANNEL_ID (const env)) (Proposals.voting_message_id q)
         = Some voting_message →
       (Payload.channel_id payload
          ∈ CHANNELS_TO_REMOVE_HELPER_MESSAGES_AND_REACTIONS (const env) →
        is_Some (fetch_message env (Payload.channel_id payload)
                   (Payload.message_id payload))) →
       let reaction_message :=
         if decide (Payload.channel_id payload
                    ∈ CHANNELS_TO_REMOVE_HELPER_MESSAGES_AND_REACTIONS (const env))
         then fetch_message env (Payload.channel_id payload) (Payload.message_id payload)
         else None in
       trace (final check)
       = trace w ++ attempts env (wrong_message_calls env payload m reaction_message
                                    voting_message)).
Proof.
  intros Hinvalid check r.
  destruct (invalid_reaction env w payload Hinvalid) as (Hok & Hstate & Htrace).
  split_and!; [done..| |].
  - intros Hacted. by destruct (is_valid_trace env payload w) as [?|?].
  - intros. by apply is_valid_wrong_message with (q := q).
Qed.

Lemma C10_witness :
  let payload := heart_reaction 5 in
  let check := exec example_env (is_valid_voting_reaction example_env payload) example_world in
  let r := exec example_env (on_raw_reaction_add example_env payload) example_world in
  outcome check = Ok (Some false)
  ∧ outcome r = Ok tt
  ∧ state (final r) = state example_world
  ∧ trace (final r) = trace (final check) ++ [Did (add_reaction 13 300 "heart")].
Proof.
  split; [by vm_compute|].
  destruct (C10_reaction_that_is_no_vote example_env example_world (heart_reaction 5))
    as (Hok & Hstate & Htrace & _).
  - by vm_compute.
  - split_and!; [exact Hok|exact Hstate|exact Htrace].
Defined.

(** The heart of user 5 is doubled. *)
Example heart_is_doubled :
  trace (final (exec example_env (on_raw_reaction_add example_env (heart_reaction 5))
                     example_world))
  = [Did (add_reaction 13 300 "heart")].
Proof. by vm_compute. Qed.

(** A reaction the check cannot place -- the guild is not found, as for a
    reaction in a direct message -- ends in the error reply. *)
Example reaction_without_guild :
  let r := exec env_no_guild (on_raw_reaction_add env_no_guild (example_vote 5)) example_world in
  outcome (exec env_no_guild (is_valid_voting_reaction env_no_guild (example_vote 5))
             example_world) = Err AttributeError
  ∧ state (final r) = state example_world
  ∧ trace (final r)
    = [Did (reply 10 200 (fmt (UNEXPECTED_ERROR "handling reaction adding")
                            [("cc", a_str "<@1>")]));
       Logged CRITICAL (unexpected_error "handling reaction adding")].
Proof. by vm_compute. Qed.

(** ** Handlers that take turns *)

(** A turn is a part of the run: running on after it gives what the run
    gives. *)
Lemma exec_advance {A} env (m : M A) w :
  exec env m w = exec env (advance env m w).2 (advance env m w).1.
Proof. revert w. induction m as [a|e|f IH|w0 m IH|a f IH]; intros w; simpl; auto. Qed.

Lemma interleave_app env s1 s2 pool w :
  interleave env (s1 ++ s2) pool w
  = interleave env s2 (interleave env s1 pool w).2 (interleave env s1 pool w).1.
Proof.
  revert pool w. induction s1 as [|i s1 IH]; intros pool w; [done|].
  simpl. destruct (pool !! i) as [m|]; [|apply IH].
  destruct (advance env m w) as [w' m']. apply IH.
Qed.

(** *** Announced cancellations *)

Lemma cancellations_snoc t e :
  cancellations (t ++ [e]) = (cancellations t + (if is_cancellation e then 1 else 0))%nat.
Proof.
  unfold cancellations. rewrite filter_app, length_app. f_equal.
  rewrite filter_cons, filter_nil. by destruct (is_cancellation e).
Qed.

(** The validity check announces none. *)
Lemma is_valid_cancellations env payload w :
  wp env (is_valid_voting_reaction env payload)
     (λ w' _, cancellations (trace w') = cancellations (trace w)) w.
Proof.
  unfold is_valid_voting_reaction, get_proposal_initiated_by, is_relevant_proposal.
  wp_steps.
  all: tidy; rewrite ?cancellations_snoc; simpl; lia.
Qed.

(** The vote that closes the proposal announces one, when every call and
    write goes through. *)
Lemma cancel_announced_once env w payload p reacting r :
  cooperative env →
  outcome (exec env (is_valid_voting_reaction env payload) w) = Ok (Some true) →
  recovery (db (state w)) = false →
  index (state w) !! Payload.message_id payload = Some p →
  find_voter (db (state w)) (Payload.user_id payload) (Payload.message_id payload) = None →
  Payload.member payload = Some reacting →
  is_Some (get_message env (Payload.channel_id payload) (Payload.message_id payload)) →
  ¬ has_history (db (state w)) (Proposals.id p) →
  verdict (voted (db (state w)) p (Payload.user_id payload)) (Some reacting) = Some r →
  cancellations (trace (final (exec env (on_raw_reaction_add env payload) w)))
  = S (cancellations (trace w)).
Proof.
  intros [Hio Hdb] Hvalid Hrec Hp Hfind Hm [vmsg Hvmsg] Hnew Hr.
  pose proof (is_valid_cancellations env payload w) as Hc. unfold wp in Hc.
  pattern (final (exec env (on_raw_reaction_add env payload) w)). apply wp_final.
  run_add Hvalid Hio Hdb.
  all: unfold verdict in Hr; repeat case_decide; simplify_eq.
  all: rewrite !cancellations_snoc, Hc.
  all: repeat match goal with
         | H : edit_in_voting_channel _ _ _ _ = Some _ |- _ =>
             unfold edit_in_voting_channel in H; simplify_eq
         end.
  all: simpl; lia.
Qed.

(** The validity check: what it leaves of the state, and of the count of
    announced cancellations. *)
Lemma wp_is_valid_counted env payload (Q : World → Outcome (option bool) → Prop) w :
  (∀ w' o, state w' = state w →
     cancellations (trace w') = cancellations (trace w) →
     (o = Ok (Some true) → is_Some (index (state w) !! Payload.message_id payload)) →
     Q w' o) →
  wp env (is_valid_voting_reaction env payload) Q w.
Proof.
  intros H. unfold wp.
  destruct (is_valid_spec env payload w) as [Hs Hv].
  apply H; [done|apply is_valid_cancellations|]. intros Ho. by destruct (Hv Ho).
Qed.

(** The error report announces none either. *)
Lemma wp_report_error_counted env payload doing (Q : World → Outcome unit → Prop) w :
  (∀ w', state w' = state w → cancellations (trace w') = cancellations (trace w) →
         Q w' (Ok tt)) →
  wp env (report_error env payload doing) Q w.
Proof.
  intros H. unfold report_error. wp_steps; apply H; try reflexivity.
  all: tidy; rewrite ?cancellations_snoc; simpl; lia.
Qed.

(** A reaction on a message without an active proposal announces none. *)
Lemma no_vote_no_cancellation env payload w :
  index (state w) !! Payload.message_id payload = None →
  cancellations (trace (final (exec env (on_raw_reaction_add env payload) w)))
  = cancellations (trace w).
Proof.
  intros Hgone.
  pattern (final (exec env (on_raw_reaction_add env payload) w)). apply wp_final.
  unfold on_raw_reaction_add.
  wp_step. wp_step. apply wp_is_valid_counted. intros w' o Hs Hc Hv.
  destruct o as [[[|]|]|e].
  { destruct Hv as [? Hv]; [done|]. congruence. }
  all: cbn [truthy negb].
  all: repeat first [apply wp_report_error_counted; intros ? ? ? | wp_step].
  all: tidy; rewrite ?cancellations_snoc in *; simpl in *; lia.
Qed.

(** Left to itself, a handler ends after finitely many turns, with what
    [exec] says. *)
Lemma interleave_alone env (m : M unit) i pool w :
  pool !! i = Some m →
  ∃ n, interleave env (replicate (S n) i) pool w
       = (final (exec env m w), <[i := of_outcome (outcome (exec env m w))]> pool).
Proof.
  revert w pool.
  induction m as [a|e|f IH|w0 m IH|a f IH]; intros w pool Hi.
  - exists 0%nat. simpl. by rewrite Hi.
  - exists 0%nat. simpl. by rewrite Hi.
  - destruct (IH w w (<[i := f w]> pool)) as [n Hn].
    { apply list_lookup_insert_eq. by eapply lookup_lt_Some. }
    exists n. cbn [replicate interleave exec] in *. rewrite Hi.
    rewrite list_lookup_insert_eq in Hn by (by eapply lookup_lt_Some).
    cbn [advance]. destruct (advance env (f w) w) as [w' m'].
    by rewrite !list_insert_insert_eq in Hn.
  - destruct (IH w0 (<[i := m]> pool)) as [n Hn].
    { apply list_lookup_insert_eq. by eapply lookup_lt_Some. }
    exists n. cbn [replicate interleave exec] in *. rewrite Hi.
    rewrite list_lookup_insert_eq in Hn by (by eapply lookup_lt_Some).
    cbn [advance]. destruct (advance env m w0) as [w' m'].
    by rewrite !list_insert_insert_eq in Hn.
  - destruct (IH (io_ok env a) (emit (called env a) w) (<[i := f (io_ok env a)]> pool))
      as [n Hn].
    { apply list_lookup_insert_eq. by eapply lookup_lt_Some. }
    exists (S n). rewrite list_insert_insert_eq in Hn.
    change (replicate (S (S n)) i) with (i :: replicate (S n) i).
    cbn [interleave exec]. rewrite Hi. cbn [advance]. exact Hn.
Qed.

(** Handling two events one after the other is one of the ways their
    handlers can take turns. *)
Lemma interleave_one_after_the_other env (m1 m2 : M unit) w :
  let r1 := exec env m1 w in
  let r2 := exec env m2 (final r1) in
  ∃ schedule,
    interleave env schedule [m1; m2] w
    = (final r2, [of_outcome (outcome r1); of_outcome (outcome r2)]).
Proof.
  intros r1 r2.
  destruct (interleave_alone env m1 0 [m1; m2] w) as [n1 H1]; [done|].
  destruct (interleave_alone env m2 1 [of_outcome (outcome r1); m2] (final r1))
    as [n2 H2]; [done|].
  exists (replicate (S n1) 0%nat ++ replicate (S n2) 1%nat).
  rewrite interleave_app, H1. exact H2.
Qed.


(** A vote on a voting message without an active proposal changes nothing. *)
Lemma vote_on_closed env payload w :
  index (state w) !! Payload.message_id payload = None →
  state (final (exec env (on_raw_reaction_add env payload) w)) = state w.
Proof.
  intros Hgone. destruct (add_run env payload w) as [_ Heff].
  inversion Heff; congruence.
Qed.

(** C9.  The handlers take no lock.  Handled one after the other -- one of
    the ways their handlers can take turns -- two votes on a proposal that
    is one vote short of its threshold give exactly one cancellation and
    one archived proposal: the first vote closes the proposal as cancelled
    by threshold and the cancellation is announced once; the second finds
    no active proposal and changes nothing.  (The first vote is one that
    gets recorded, by someone other than the author, and every call and
    write goes through.) *)
Theorem C9_votes_one_after_the_other env w payload payload' p reacting :
  cooperative env →
  outcome (exec env (is_valid_voting_reaction env payload) w) = Ok (Some true) →
  recovery (db (state w)) = false →
  Active (state w) p →
  Payload.message_id payload = Proposals.voting_message_id p →
  Payload.message_id payload' = Proposals.voting_message_id p →
  find_voter (db (state w)) (Payload.user_id payload) (Payload.message_id payload) = None →
  Payload.member payload = Some reacting →
  Proposals.author p ≠ member_mention reacting →
  is_Some (get_message env (Payload.channel_id payload) (Payload.message_id payload)) →
  Z.of_nat (length (Proposals.voters p)) = Proposals.threshold p - 1 →
  let first := on_raw_reaction_add env payload in
  let second := on_raw_reaction_add env payload' in
  let w1 := final (exec env first w) in
  let w2 := final (exec env second w1) in
  closed_with (state w) (state w2) p CANCELLED_BY_REACHING_THRESHOLD
  ∧ state w2 = state w1
  ∧ cancellations (trace w2) = S (cancellations (trace w))
  ∧ ∃ schedule, (interleave env schedule [first; second] w).1 = w2.
Proof.
  intros Hco Hvalid Hrec HA Hmid Hmid' Hfind Hm Hauthor Hvmsg Hcount first second w1 w2.
  pose proof HA as (Hi & Hdb & Hh). rewrite <- Hmid in Hi.
  set (p' := voted (db (state w)) p (Payload.user_id payload)).
  assert (verdict p' (Some reacting) = Some CANCELLED_BY_REACHING_THRESHOLD) as Hverdict.
  { unfold verdict. rewrite decide_False by done. rewrite decide_True; [done|].
    unfold p', voted. cbn [Proposals.set_voters Proposals.voters Proposals.threshold].
    rewrite length_app. simpl. lia. }
  destruct (add_run_cancel env w payload p reacting CANCELLED_BY_REACHING_THRESHOLD)
    as (h & Hh' & Hs); try done.
  assert (closed_with (state w) (state w1) p CANCELLED_BY_REACHING_THRESHOLD) as Hclosed.
  { subst w1 first. rewrite Hs. by apply archived_closed_with. }
  assert (index (state w1) !! Payload.message_id payload' = None) as Hgone.
  { rewrite Hmid'. apply Hclosed. }
  assert (state w2 = state w1) as Hsame by (by apply vote_on_closed).
  split_and!.
  - by rewrite Hsame.
  - done.
  - subst w2 second. rewrite no_vote_no_cancellation by done.
    subst w1 first. by eapply cancel_announced_once.
  - destruct (interleave_one_after_the_other env first second w) as [schedule Hsch].
    exists schedule. by rewrite Hsch.
Qed.

Lemma C9_witness :
  let first := on_raw_reaction_add example_env (example_vote 6) in
  let second := on_raw_reaction_add example_env (example_vote 8) in
  let w1 := final (exec example_env first one_short_world) in
  let w2 := final (exec example_env second w1) in
  closed_with (state one_short_world) (state w2) one_short_proposal
    CANCELLED_BY_REACHING_THRESHOLD
  ∧ state w2 = state w1
  ∧ cancellations (trace w2) = S (cancellations (trace one_short_world))
  ∧ ∃ schedule, (interleave example_env schedule [first; second] one_short_world).1 = w2.
Proof.
  apply (C9_votes_one_after_the_other example_env one_short_world (example_vote 6)
           (example_vote 8) one_short_proposal (example_member 6)).
  - exact example_env_cooperative.
  - vm_compute. reflexivity.
  - reflexivity.
  - exact one_short_Active.
  - reflexivity.
  - reflexivity.
  - vm_compute. reflexivity.
  - reflexivity.
  - vm_compute. discriminate.
  - vm_compute. eauto.
  - vm_compute. reflexivity.
Defined.

(** C9 as stated fails: the same two votes when their handlers take turns.
    Both votes arrive while the proposal is one vote short of its
    threshold.  The handler of the vote of user 6 records the vote and
    awaits its first call in [cancel_proposal]; nothing keeps the handler
    of the vote of user 8 from running meanwhile: it records a third vote
    and starts to cancel as well.  Both announce the cancellation; the
    second finds the history row written and ends in the error report. *)
Lemma C9_votes_interleaved :
  let schedule := ([0; 1] ++ replicate 4 0 ++ replicate 5 1)%nat in
  let voters_of (r : World * list (M unit)) :=
    (λ p, Voters.user_id <$> Proposals.voters p) <$> index (state r.1) !! 200 in
  let r1 := interleave example_env [0%nat] two_votes one_short_world in
  let r2 := interleave example_env [0%nat; 1%nat] two_votes one_short_world in
  let r := interleave example_env schedule two_votes one_short_world in
  Active (state one_short_world) one_short_proposal
  ∧ Z.of_nat (length (Proposals.voters one_short_proposal))
    = Proposals.threshold one_short_proposal - 1
  ∧ (ended <$> r1.2 = [None; None] ∧ voters_of r1 = Some [5; 6])
  ∧ (ended <$> r2.2 = [None; None] ∧ voters_of r2 = Some [5; 6; 8])
  ∧ ended <$> r.2 = [Some (Ok tt); Some (Ok tt)]
  ∧ cancellations (trace r.1) = 2%nat
  ∧ length (history (db (state r.1))) = 1%nat
  ∧ trace r.1
    = trace one_short_world
      ++ [Logged INFO (added_vote 6 2 200);
          Did (add_reaction 11 100 "no");
          Logged INFO (added_vote 8 3 200);
          Did (add_reaction 11 100 "no");
          Did (reply 11 100
                 (fmt (GRANTLESS_PROPOSAL_RESULT_PROPOSER_RESPONSE
                         CANCELLED_BY_REACHING_THRESHOLD)
                    [("author", a_str "<@7>"); ("threshold", a_int 3);
                     ("voting_link", a_str "url")]));
          Did (suppress_reply 11 100);
          Did (edit 10 200
                 (fmt (PROPOSAL_CANCELLED_VOTING_CHANNEL CANCELLED_BY_REACHING_THRESHOLD)
                    [("threshold", a_int 3); ("voters_list", a_users [5; 6]);
                     ("link_to_original_message", a_opt (Some "url"))]) true);
          Logged INFO (cancelled true CANCELLED_BY_REACHING_THRESHOLD 200);
          Did (reply 11 100
                 (fmt (GRANTLESS_PROPOSAL_RESULT_PROPOSER_RESPONSE
                         CANCELLED_BY_REACHING_THRESHOLD)
                    [("author", a_str "<@7>"); ("threshold", a_int 3);
                     ("voting_link", a_str "url")]));
          Did (suppress_reply 11 100);
          Did (edit 10 200
                 (fmt (PROPOSAL_CANCELLED_VOTING_CHANNEL CANCELLED_BY_REACHING_THRESHOLD)
                    [("threshold", a_int 3); ("voters_list", a_users [5; 6; 8]);
                     ("link_to_original_message", a_opt (Some "url"))]) true);
          Did (reply 10 200
                 (fmt (UNEXPECTED_ERROR "handling reaction adding") [("cc", a_str "<@1>")]));
          Logged CRITICAL (unexpected_error "handling reaction adding")].
Proof.
  split_and!; [exact one_short_Active|by vm_compute..].
Qed.
